(** * Zscaler to Illumio IPList synchroniser

    A shallow embedding of [update_zscaler_iplist.py] and a verification of
    its fetch / reconcile / provision pipeline.

    The script talks to two external systems (the Zscaler HTTP endpoint and
    the Illumio policy compute engine) and to the operating system (standard
    output, standard error, the exit status).  These are modelled by a world
    type [W] with an interface [Platform W]; every function of the script is
    a computation [Run W A] that threads the world, records the calls and the
    printed lines in a trace and ends in an [Outcome].

    The [requests] and [illumio] packages are not part of the script: what
    their calls answer is a parameter of [Platform], and so is the set of
    values the constructor of [IPRange] refuses.  The script never checks
    the shape of the feed, and neither does the model: the value the fetch
    returned is passed on to the reconcile step whatever it is. *)

From Stdlib Require Import ZArith String Ascii DecimalString.
From stdpp Require Import base list strings gmap sorting.

(** ** Python values and builtins used by the script *)

Module Py.

(** Exception classes the script distinguishes.  All of them derive from
    [Exception]; [sys.exit] is modelled apart (see [Outcome]). *)
Inductive ExnKind :=
| RequestException
| KeyError
| ValueError
| AttributeError
| TypeError
| OtherException.

Record Exn := { exn_kind : ExnKind; exn_msg : string }.

#[global] Instance ExnKind_eq_dec : EqDecision ExnKind.
Proof. solve_decision. Defined.

(** A call either returns or raises. *)
Inductive Raises (A : Type) :=
| Ok (a : A)
| Raise (e : Exn).
Arguments Ok {A} a.
Arguments Raise {A} e.

#[local] Set Warnings "-register-all".

(** What [response.json()] can return. Strings are byte sequences (UTF-8);
    a float is kept as its literal. *)
Inductive PyVal :=
| PyNone
| PyBool (b : bool)
| PyInt (z : Z)
| PyFloat (literal : string)
| PyStr (s : string)
| PyList (items : list PyVal)
| PyDict (kvs : list (string * PyVal)).

Definition type_name (v : PyVal) : string :=
  match v with
  | PyNone => "NoneType"
  | PyBool _ => "bool"
  | PyInt _ => "int"
  | PyFloat _ => "float"
  | PyStr _ => "str"
  | PyList _ => "list"
  | PyDict _ => "dict"
  end.

(** [str(n)] for the integers the script prints. *)
Definition str_of_nat (n : nat) : string :=
  NilZero.string_of_uint (Nat.to_uint n).
Definition str_of_Z (z : Z) : string :=
  NilZero.string_of_int (Z.to_int z).

(** [str(x)] of an attribute that may be [None]. *)
Definition str_of_opt (o : option string) : string :=
  match o with Some s => s | None => "None" end.

(** Truthiness of an optional string: [None] and [""] are falsy. *)
Definition truthy (o : option string) : bool :=
  match o with
  | None => false
  | Some s => negb (String.eqb s "")
  end.

(** [sorted] on a list of strings: Python compares strings code point by
    code point, which on UTF-8 bytes is the byte-wise lexicographic order
    [String.le]; the order is total and antisymmetric, so the stable sort
    is the only sorted permutation. *)
Definition sorted (l : list string) : list string :=
  merge_sort String.le l.

(** Number of code points of a UTF-8 byte string: every byte that is not a
    continuation byte (10xxxxxx) starts one. *)
Fixpoint code_points (s : string) : nat :=
  match s with
  | EmptyString => 0
  | String c rest =>
      let n := N_of_ascii c in
      (if (128 <=? n)%N && (n <? 192)%N then 0 else 1) + code_points rest
  end.

(** A JSON object with a repeated key keeps the last value. *)
Fixpoint dict_lookup (key : string) (kvs : list (string * PyVal))
  : option PyVal :=
  match kvs with
  | [] => None
  | (k, v) :: rest =>
      match dict_lookup key rest with
      | Some v' => Some v'
      | None => if String.eqb k key then Some v else None
      end
  end.

(** [data.get(key, default)]: only a dict has the method. *)
Definition get (data : PyVal) (key : string) (default : PyVal)
  : Raises PyVal :=
  match data with
  | PyDict kvs =>
      Ok (match dict_lookup key kvs with Some v => v | None => default end)
  | _ => Raise {| exn_kind := AttributeError;
                  exn_msg := "'" +:+ type_name data
                             +:+ "' object has no attribute 'get'" |}
  end.

(** [len(v)]. *)
Definition len (v : PyVal) : Raises nat :=
  match v with
  | PyList items => Ok (length items)
  | PyStr s => Ok (code_points s)
  | PyDict kvs => Ok (size (list_to_set (fst <$> kvs) : gset string))
  | _ => Raise {| exn_kind := TypeError;
                  exn_msg := "object of type '" +:+ type_name v
                             +:+ "' has no len()" |}
  end.

(** The value is a [List[str]], as the annotation of [fetch_zscaler_ips]
    promises. *)
Fixpoint str_items (items : list PyVal) : option (list string) :=
  match items with
  | [] => Some []
  | PyStr s :: rest =>
      match str_items rest with
      | Some l => Some (s :: l)
      | None => None
      end
  | _ :: _ => None
  end.

Definition as_str_list (v : PyVal) : option (list string) :=
  match v with
  | PyList items => str_items items
  | _ => None
  end.

(** The characters of a str, one string per code point: [split_chars s] is
    the run of continuation bytes [s] starts with, then the characters that
    follow it.  A str is valid UTF-8 and does not start with a continuation
    byte. *)
Fixpoint split_chars (s : string) : string * list string :=
  match s with
  | EmptyString => (EmptyString, [])
  | String c rest =>
      let '(continuation, following) := split_chars rest in
      let n := N_of_ascii c in
      if (128 <=? n)%N && (n <? 192)%N then (String c continuation, following)
      else (EmptyString, String c continuation :: following)
  end.

Definition chars (s : string) : list string :=
  match split_chars s with
  | (EmptyString, following) => following
  | (stray, following) => stray :: following
  end.

(** The keys of a dict in iteration order: each key once, where it was
    first inserted. *)
Fixpoint keys_after (seen : list string) (kvs : list (string * PyVal))
  : list string :=
  match kvs with
  | [] => []
  | (k, _) :: rest =>
      if bool_decide (k ∈ seen) then keys_after seen rest
      else k :: keys_after (k :: seen) rest
  end.

Definition dict_keys (kvs : list (string * PyVal)) : list string :=
  keys_after [] kvs.

(** [for x in v] and [sorted(v)] iterate over [v]: a list gives its items, a
    str its characters, a dict its keys; other values are not iterable. *)
Definition iterate (v : PyVal) : Raises (list PyVal) :=
  match v with
  | PyList items => Ok items
  | PyStr s => Ok (PyStr <$> chars s)
  | PyDict kvs => Ok (PyStr <$> dict_keys kvs)
  | _ => Raise {| exn_kind := TypeError;
                  exn_msg := "'" +:+ type_name v
                             +:+ "' object is not iterable" |}
  end.

(** The value iterates over strings only (a list of strings, a str, a
    dict): these are the strings. *)
Definition as_strings (v : PyVal) : option (list string) :=
  match v with
  | PyList items => str_items items
  | PyStr s => Some (chars s)
  | PyDict kvs => Some (dict_keys kvs)
  | _ => None
  end.

(** A list comprehension [[f(x) for x in items]]: the items are taken from
    left to right, and the first exception ends it. *)
Fixpoint comprehension {A B} (f : A -> Raises B) (items : list A)
  : Raises (list B) :=
  match items with
  | [] => Ok []
  | x :: rest =>
      match f x with
      | Raise e => Raise e
      | Ok y =>
          match comprehension f rest with
          | Raise e => Raise e
          | Ok ys => Ok (y :: ys)
          end
      end
  end.

End Py.
Export Py.

(** ** Objects of the [illumio] package *)

Module Illumio.

(** [IPRange]: only [from_ip] is read or written by the script. *)
Record IPRange := { from_ip : option string }.

Record IPList := {
  href : option string;
  name : option string;
  description : option string;
  ip_ranges : option (list IPRange)
}.

Record PolicyChangeset := {
  version : Z;
  workloads_affected : Z
}.

(** [IPList(name=..., description=..., ip_ranges=...)]: an object built by
    the script has no [href]. *)
Definition new_IPList (n d : string) (ranges : list IPRange) : IPList :=
  {| href := None; name := Some n; description := Some d;
     ip_ranges := Some ranges |}.

(** The same object when the values the ranges were built from are not all
    strings (the feed was not a list of strings): the ranges are kept as the
    values given for [from_ip]. *)
Record DynIPList := {
  dyn_name : string;
  dyn_description : string;
  dyn_from_ips : list PyVal
}.

End Illumio.
Export Illumio.

(** What [requests.get] hands back: the two methods the script calls. *)
Record Response := {
  raise_for_status : option Exn;
  json : Raises PyVal
}.

(** The parsed command line ([args] in [main]). *)
Record Args := {
  pce_host : option string;
  api_key : option string;
  api_secret : option string;
  org_id : Z;
  port : Z;
  iplist_name : string;
  no_verify_ssl : bool
}.

(** ** Traces, outcomes and the [Run] monad *)

(** What a run prints and the calls it makes, in order.  A create or an
    update is recorded with the object submitted; the [Dyn] variants carry
    an object whose range values are not all strings. *)
Inductive Event :=
| Stdout (text : string)
| Stderr (text : string)
| HttpGet (url : string) (timeout : Z)
| IpListsGet (name_param : string)
| IpListsCreate (data : IPList)
| IpListsUpdate (ref : option string) (data : IPList)
| IpListsCreateDyn (data : DynIPList)
| IpListsUpdateDyn (ref : option string) (data : DynIPList)
| IpListsGetByReference (ref : option string)
| ProvisionPolicyChanges (change_description : string)
                         (hrefs : list (option string)).

(** How a computation ends: it returns, it calls [sys.exit], or an
    exception propagates out of it. *)
Inductive Outcome (A : Type) :=
| Returned (a : A)
| Exited (status : Z)
| Raised (e : Exn).
Arguments Returned {A} a.
Arguments Exited {A} status.
Arguments Raised {A} e.

(** Exit status of the process when [main] ends with the given outcome
    (an uncaught exception makes the interpreter exit with status 1). *)
Definition exit_status {A} (o : Outcome A) : option Z :=
  match o with
  | Returned _ => Some 0%Z
  | Exited status => Some status
  | Raised _ => Some 1%Z
  end.

Definition Run (W A : Type) : Type := W -> Outcome A * W * list Event.

Definition outcome {W A} (r : Outcome A * W * list Event) : Outcome A := r.1.1.
Definition world {W A} (r : Outcome A * W * list Event) : W := r.1.2.
Definition trace {W A} (r : Outcome A * W * list Event) : list Event := r.2.

Section RunMonad.
Context {W : Type}.

Definition ret {A} (a : A) : Run W A := fun w => (Returned a, w, []).

Definition bind {A B} (m : Run W A) (k : A -> Run W B) : Run W B :=
  fun w =>
    match m w with
    | (Returned a, w1, t1) =>
        let '(o, w2, t2) := k a w1 in (o, w2, t1 ++ t2)
    | (Exited status, w1, t1) => (Exited status, w1, t1)
    | (Raised e, w1, t1) => (Raised e, w1, t1)
    end.

Definition emit (ev : Event) : Run W unit := fun w => (Returned tt, w, [ev]).

(** [print(text)] and [print(text, file=sys.stderr)]. *)
Definition print (text : string) : Run W unit := emit (Stdout text).
Definition print_err (text : string) : Run W unit := emit (Stderr text).

(** [sys.exit(status)]. *)
Definition sys_exit {A} (status : Z) : Run W A :=
  fun w => (Exited status, w, []).

(** [raise e]. *)
Definition raise {A} (e : Exn) : Run W A := fun w => (Raised e, w, []).

(** An external call: the event is recorded, then the call returns or
    raises. *)
Definition call {A} (ev : Event) (op : W -> Raises A * W) : Run W A :=
  fun w =>
    match op w with
    | (Ok a, w1) => (Returned a, w1, [ev])
    | (Raise e, w1) => (Raised e, w1, [ev])
    end.

(** A local operation that may raise (no event). *)
Definition local {A} (op : W -> Raises A * W) : Run W A :=
  fun w =>
    match op w with
    | (Ok a, w1) => (Returned a, w1, [])
    | (Raise e, w1) => (Raised e, w1, [])
    end.

Definition lift {A} (r : Raises A) : Run W A :=
  match r with
  | Ok a => ret a
  | Raise e => raise e
  end.

(** [try: body  except ...: handler]: [handler e] is [Some h] when one of
    the [except] clauses matches [e]. *)
Definition try_except {A} (body : Run W A)
    (handler : Exn -> option (Run W A)) : Run W A :=
  fun w =>
    match body w with
    | (Raised e, w1, t1) =>
        match handler e with
        | Some h => let '(o, w2, t2) := h w1 in (o, w2, t1 ++ t2)
        | None => (Raised e, w1, t1)
        end
    | r => r
    end.

(** [for x in items: body x]. *)
Fixpoint for_each {A} (items : list A) (body : A -> Run W unit)
  : Run W unit :=
  match items with
  | [] => ret tt
  | x :: rest => bind (body x) (fun _ => for_each rest body)
  end.

End RunMonad.

Declare Scope run_scope.
Delimit Scope run_scope with run.
Notation "x <- m ;; k" := (bind m (fun x => k))
  (at level 100, m at next level, right associativity) : run_scope.
Notation "m ;; k" := (bind m (fun _ => k))
  (at level 100, right associativity) : run_scope.

(** ** The external world *)

Class Platform (W : Type) := {
  (** [requests.get(url, timeout=...)] *)
  requests_get : string -> Z -> W -> Raises Response * W;
  (** [os.environ.get(key)] *)
  environ_get : string -> W -> option string;
  (** the order in which [list(s)] enumerates a set; Python leaves it
      unspecified, but every element comes exactly once *)
  set_iteration : gset string -> list string;
  set_iteration_elements : forall s, set_iteration s ≡ₚ elements s;
  (** [PolicyComputeEngine(host, port=..., org_id=...)] *)
  pce_construct : option string -> Z -> Z -> W -> Raises unit * W;
  (** [pce.set_credentials(key, secret)] *)
  pce_set_credentials : option string -> option string -> W -> Raises unit * W;
  (** [pce.set_tls_settings(verify=...)] *)
  pce_set_tls_settings : bool -> W -> Raises unit * W;
  (** [pce.ip_lists.get(params={'name': name})] *)
  ip_lists_get : string -> W -> Raises (list IPList) * W;
  (** [pce.ip_lists.create(data)] *)
  ip_lists_create : IPList -> W -> Raises IPList * W;
  (** [pce.ip_lists.update(ref, data)]; may return [None] *)
  ip_lists_update : option string -> IPList -> W -> Raises (option IPList) * W;
  (** [pce.ip_lists.get_by_reference(ref)] *)
  ip_lists_get_by_reference : option string -> W -> Raises IPList * W;
  (** [pce.provision_policy_changes(change_description=..., hrefs=...)] *)
  pce_provision_policy_changes :
    string -> list (option string) -> W -> Raises PolicyChangeset * W;
  (** [IPRange(from_ip=value)]: the exception the constructor raises when it
      refuses the value, [None] when it accepts it *)
  IPRange_raises : PyVal -> option Exn;
  (** [compare_ip_ranges(existing, new)] for a [new] that does not iterate
      over strings: the lines it prints, then what it returns or raises
      (how Python orders, hashes and formats such values is left to the
      platform) *)
  compare_ip_ranges_dyn : list IPRange -> PyVal -> list string * Raises bool;
  (** [pce.ip_lists.create(data)] and [pce.ip_lists.update(ref, data)] for
      an object whose range values are not all strings *)
  ip_lists_create_dyn : DynIPList -> W -> Raises IPList * W;
  ip_lists_update_dyn :
    option string -> DynIPList -> W -> Raises (option IPList) * W
}.

(** ** The script *)

Definition nl : string := String "010"%char EmptyString.

Definition ZSCALER_API_URL : string :=
  "https://config.zscaler.com/api/zscaler.net/future/json".

(** The fixed description given to every IPList the script writes. *)
Definition AUTO_DESCRIPTION : string := "Zscaler IP ranges - Auto-updated".

(** [[r.from_ip for r in existing_ip_ranges if r.from_ip]] *)
Definition from_ip_values (existing_ip_ranges : list IPRange) : list string :=
  omap (fun r => if truthy (from_ip r) then from_ip r else None)
       existing_ip_ranges.

(** [new_set - existing_set] and [existing_set - new_set], the sets being
    built from the sorted lists. *)
Definition added (existing_ips new_ips : list string) : gset string :=
  let existing_set : gset string := list_to_set existing_ips in
  let new_set : gset string := list_to_set new_ips in
  new_set ∖ existing_set.

Definition removed (existing_ips new_ips : list string) : gset string :=
  let existing_set : gset string := list_to_set existing_ips in
  let new_set : gset string := list_to_set new_ips in
  existing_set ∖ new_set.

Section Script.
Context {W : Type} `{Platform W}.
Local Open Scope run_scope.

(** Lines 27-50. *)
Definition fetch_zscaler_ips : Run W PyVal :=
  try_except
    (print ("Fetching IP addresses from " +:+ ZSCALER_API_URL +:+ "...") ;;
     response <- call (HttpGet ZSCALER_API_URL 30)
                      (requests_get ZSCALER_API_URL 30) ;;
     (match raise_for_status response with
      | Some e => raise e
      | None => ret tt
      end) ;;
     data <- lift (json response) ;;
     prefixes <- lift (Py.get data "prefixes" (PyList [])) ;;
     n <- lift (len prefixes) ;;
     print ("Successfully fetched " +:+ str_of_nat n
            +:+ " IP ranges from Zscaler") ;;
     ret prefixes)
    (fun e =>
       match exn_kind e with
       | RequestException =>
           Some (print_err ("Error fetching Zscaler IPs: " +:+ exn_msg e) ;;
                 sys_exit 1)
       | KeyError | ValueError =>
           Some (print_err ("Error parsing Zscaler response: " +:+ exn_msg e) ;;
                 sys_exit 1)
       | _ => None
       end).

(** Lines 84-92 and 94-102: the same block, once with "Added" and "+" for
    [added], once with "Removed" and "-" for [removed]. *)
Definition print_diff (label sign : string) (s : gset string) : Run W unit :=
  if bool_decide (s = ∅) then ret tt
  else
    print ("  " +:+ label +:+ ": " +:+ str_of_nat (size s) +:+ " IP range(s)") ;;
    if bool_decide (size s ≤ 10) then
      for_each (sorted (elements s))
               (fun ip => print ("    " +:+ sign +:+ " " +:+ ip))
    else
      for_each (sorted (take 10 (set_iteration s)))
               (fun ip => print ("    " +:+ sign +:+ " " +:+ ip)) ;;
      print ("    ... and " +:+ str_of_nat (size s - 10) +:+ " more").

(** Lines 53-106. *)
Definition compare_ip_ranges (existing_ip_ranges : list IPRange)
    (new_ip_ranges : list string) : Run W bool :=
  let existing_ips := sorted (from_ip_values existing_ip_ranges) in
  let new_ips := sorted new_ip_ranges in
  let are_different := bool_decide (existing_ips ≠ new_ips) in
  (if are_different then
     print "IP ranges have changed:" ;;
     print ("  Existing: " +:+ str_of_nat (length existing_ips)
            +:+ " IP ranges") ;;
     print ("  New: " +:+ str_of_nat (length new_ips) +:+ " IP ranges") ;;
     print_diff "Added" "+" (added existing_ips new_ips) ;;
     print_diff "Removed" "-" (removed existing_ips new_ips)
   else
     print ("IP ranges are unchanged ("
            +:+ str_of_nat (length existing_ips) +:+ " IP ranges)")) ;;
  ret are_different.

(** [IPRange(from_ip=ip_range)]: the constructor raises on a value it
    refuses; the object it builds otherwise holds the value. *)
Definition new_IPRange (ip_range : string) : Raises IPRange :=
  match IPRange_raises (PyStr ip_range) with
  | Some e => Raise e
  | None => Ok {| from_ip := Some ip_range |}
  end.

(** Lines 109-183, on a list of strings. *)
Definition create_or_update_iplist (iplist_name : string)
    (ip_ranges : list string) : Run W (IPList * bool) :=
  try_except
    (print ("Searching for existing IPList: " +:+ iplist_name +:+ "...") ;;
     iplists <- call (IpListsGet iplist_name) (ip_lists_get iplist_name) ;;
     ip_ranges_objects <- lift (comprehension new_IPRange ip_ranges) ;;
     match iplists with
     | existing_iplist :: _ =>
         print ("Found existing IPList (href: "
                +:+ str_of_opt (href existing_iplist) +:+ ")") ;;
         let existing_ip_ranges :=
           default [] (Illumio.ip_ranges existing_iplist) in
         needs_update <- compare_ip_ranges existing_ip_ranges ip_ranges ;;
         if negb needs_update then
           print ("IPList '" +:+ iplist_name
                  +:+ "' is already up to date. No update needed.") ;;
           ret (existing_iplist, false)
         else
           print ("Updating IPList with " +:+ str_of_nat (length ip_ranges)
                  +:+ " IP ranges...") ;;
           let updated_iplist_data :=
             new_IPList iplist_name AUTO_DESCRIPTION ip_ranges_objects in
           call (IpListsUpdate (href existing_iplist) updated_iplist_data)
                (ip_lists_update (href existing_iplist) updated_iplist_data) ;;
           updated_iplist <-
             call (IpListsGetByReference (href existing_iplist))
                  (ip_lists_get_by_reference (href existing_iplist)) ;;
           print ("Successfully updated IPList: " +:+ iplist_name) ;;
           print ("IPList href: " +:+ str_of_opt (href updated_iplist)) ;;
           ret (updated_iplist, true)
     | [] =>
         print ("IPList not found. Creating new IPList: "
                +:+ iplist_name +:+ "...") ;;
         let new_iplist_data :=
           new_IPList iplist_name AUTO_DESCRIPTION ip_ranges_objects in
         new_iplist <- call (IpListsCreate new_iplist_data)
                            (ip_lists_create new_iplist_data) ;;
         print ("Successfully created IPList: " +:+ iplist_name) ;;
         print ("IPList href: " +:+ str_of_opt (href new_iplist)) ;;
         ret (new_iplist, true)
     end)
    (fun e =>
       Some (print_err ("Error creating/updating IPList: " +:+ exn_msg e) ;;
             sys_exit 1)).

(** [IPRange(from_ip=value)] for a value of any type. *)
Definition new_IPRange_dyn (value : PyVal) : Raises PyVal :=
  match IPRange_raises value with
  | Some e => Raise e
  | None => Ok value
  end.

(** [compare_ip_ranges(existing_ip_ranges, new_ip_ranges)] (lines 53-106)
    for a [new_ip_ranges] that does not iterate over strings: it prints,
    then returns or raises. *)
Definition compare_ip_ranges_on (existing_ip_ranges : list IPRange)
    (new_ip_ranges : PyVal) : Run W bool :=
  let '(lines, result) :=
    compare_ip_ranges_dyn existing_ip_ranges new_ip_ranges in
  for_each lines print ;;
  lift result.

(** Lines 109-183 again, for an [ip_ranges] that does not iterate over
    strings.  Nothing in the script checks the shape of the feed, so the
    function is entered with whatever [fetch_zscaler_ips] returned; the
    statements are the same, on values instead of strings. *)
Definition create_or_update_iplist_dyn (iplist_name : string)
    (ip_ranges : PyVal) : Run W (IPList * bool) :=
  try_except
    (print ("Searching for existing IPList: " +:+ iplist_name +:+ "...") ;;
     iplists <- call (IpListsGet iplist_name) (ip_lists_get iplist_name) ;;
     items <- lift (iterate ip_ranges) ;;
     ip_ranges_objects <- lift (comprehension new_IPRange_dyn items) ;;
     match iplists with
     | existing_iplist :: _ =>
         print ("Found existing IPList (href: "
                +:+ str_of_opt (href existing_iplist) +:+ ")") ;;
         let existing_ip_ranges :=
           default [] (Illumio.ip_ranges existing_iplist) in
         needs_update <- compare_ip_ranges_on existing_ip_ranges ip_ranges ;;
         if negb needs_update then
           print ("IPList '" +:+ iplist_name
                  +:+ "' is already up to date. No update needed.") ;;
           ret (existing_iplist, false)
         else
           n <- lift (len ip_ranges) ;;
           print ("Updating IPList with " +:+ str_of_nat n
                  +:+ " IP ranges...") ;;
           let updated_iplist_data :=
             {| dyn_name := iplist_name;
                dyn_description := AUTO_DESCRIPTION;
                dyn_from_ips := ip_ranges_objects |} in
           call (IpListsUpdateDyn (href existing_iplist) updated_iplist_data)
                (ip_lists_update_dyn (href existing_iplist)
                   updated_iplist_data) ;;
           updated_iplist <-
             call (IpListsGetByReference (href existing_iplist))
                  (ip_lists_get_by_reference (href existing_iplist)) ;;
           print ("Successfully updated IPList: " +:+ iplist_name) ;;
           print ("IPList href: " +:+ str_of_opt (href updated_iplist)) ;;
           ret (updated_iplist, true)
     | [] =>
         print ("IPList not found. Creating new IPList: "
                +:+ iplist_name +:+ "...") ;;
         let new_iplist_data :=
           {| dyn_name := iplist_name;
              dyn_description := AUTO_DESCRIPTION;
              dyn_from_ips := ip_ranges_objects |} in
         new_iplist <- call (IpListsCreateDyn new_iplist_data)
                            (ip_lists_create_dyn new_iplist_data) ;;
         print ("Successfully created IPList: " +:+ iplist_name) ;;
         print ("IPList href: " +:+ str_of_opt (href new_iplist)) ;;
         ret (new_iplist, true)
     end)
    (fun e =>
       Some (print_err ("Error creating/updating IPList: " +:+ exn_msg e) ;;
             sys_exit 1)).

(** The call [create_or_update_iplist(pce, args.iplist_name, ip_ranges)] of
    line 319, [ip_ranges] being whatever the fetch returned.  A list of
    strings is what the function expects; a str stands for the list of its
    characters and a dict for the list of its keys, since the function only
    iterates over its argument, sorts it and takes its length. *)
Definition reconcile_step (iplist_name : string) (ip_ranges : PyVal)
  : Run W (IPList * bool) :=
  match as_strings ip_ranges with
  | Some strings => create_or_update_iplist iplist_name strings
  | None => create_or_update_iplist_dyn iplist_name ip_ranges
  end.

(** Lines 185-199. *)
Definition provision_policy_changes (iplist_href : option string)
  : Run W unit :=
  print ("Provisioning policy changes for IPList: "
         +:+ str_of_opt iplist_href +:+ "...") ;;
  try_except
    (let change_description :=
       "Provision Zscaler IPList: " +:+ str_of_opt iplist_href in
     changeset <-
       call (ProvisionPolicyChanges change_description [iplist_href])
            (pce_provision_policy_changes change_description [iplist_href]) ;;
     print "Successfully provisioned policy changes" ;;
     print ("Policy version: " +:+ str_of_Z (version changeset)) ;;
     print ("Workloads affected: "
            +:+ str_of_Z (workloads_affected changeset)))
    (fun e =>
       Some (print_err ("Error provisioning policy changes: " +:+ exn_msg e))).

(** [os.environ.get(key)] *)
Definition environ (key : string) : Run W (option string) :=
  fun w => (Returned (environ_get key w), w, []).

(** [main], lines 277-316: the credentials are checked, the ranges fetched,
    the organisation shown and the client set up.  The value bound to
    [ip_ranges] on line 289 is returned. *)
Definition main_prepare (args : Args) : Run W PyVal :=
  (if negb (truthy (pce_host args)) then
     print_err "Error: --pce-host or ILLUMIO_PCE_HOST environment variable is required" ;;
     sys_exit 1
   else ret tt) ;;
  (if negb (truthy (api_key args)) then
     print_err "Error: --api-key or ILLUMIO_API_KEY environment variable is required" ;;
     sys_exit 1
   else ret tt) ;;
  (if negb (truthy (api_secret args)) then
     print_err "Error: --api-secret or ILLUMIO_API_SECRET environment variable is required" ;;
     sys_exit 1
   else ret tt) ;;
  ip_ranges <- fetch_zscaler_ips ;;
  env_org_id <- environ "ILLUMIO_ORG_ID" ;;
  (if negb (truthy env_org_id) && (org_id args =? 1)%Z then
     print (nl +:+ "Using default organization ID: "
            +:+ str_of_Z (org_id args)) ;;
     print "  (Set ILLUMIO_ORG_ID environment variable or use --org-id to specify)"
   else
     print (nl +:+ "Using organization ID: " +:+ str_of_Z (org_id args))) ;;
  print ("Connecting to Illumio PCE at " +:+ str_of_opt (pce_host args)
         +:+ ":" +:+ str_of_Z (port args) +:+ "...") ;;
  try_except
    (local (pce_construct (pce_host args) (port args) (org_id args)) ;;
     local (pce_set_credentials (api_key args) (api_secret args)) ;;
     (if no_verify_ssl args then
        print "Warning: SSL verification disabled" ;;
        local (pce_set_tls_settings false)
      else ret tt) ;;
     print ("Successfully connected to Illumio PCE (Org ID: "
            +:+ str_of_Z (org_id args) +:+ ")"))
    (fun e =>
       Some (print_err ("Error connecting to Illumio PCE: " +:+ exn_msg e) ;;
             sys_exit 1)) ;;
  ret ip_ranges.

(** [main], lines 318-328. *)
Definition main_reconcile (args : Args) (ip_ranges : PyVal) : Run W unit :=
  result <- reconcile_step (iplist_name args) ip_ranges ;;
  let iplist := result.1 in
  let was_updated := result.2 in
  print ("IPList href: " +:+ str_of_opt (href iplist)) ;;
  if was_updated then
    print (nl +:+ "Provisioning policy changes...") ;;
    provision_policy_changes (href iplist) ;;
    print (nl +:+ "✓ Script completed successfully!")
  else
    print (nl +:+ "✓ Script completed successfully (no changes to provision)!").

(** [main] from line 277 on, [args] being what [parser.parse_args()]
    returned on line 275.  Building the parser and parsing the command line
    (lines 203-275), which ends the process itself on a usage error or on
    [--help], comes before and is not part of this definition. *)
Definition main (args : Args) : Run W unit :=
  ip_ranges <- main_prepare args ;;
  main_reconcile args ip_ranges.

End Script.

(** ** A reference world: an in-memory policy engine

    One implementation of [Platform], used to run the script on concrete
    inputs: the HTTP answer is fixed in advance, the policy engine keeps its
    IPLists in a list, and any operation can be made to fail. *)

Module Sim.

Inductive Op :=
| OpConstruct | OpSetCredentials | OpSetTls
| OpGet | OpCreate | OpUpdate | OpGetByReference | OpProvision.

#[global] Instance Op_eq_dec : EqDecision Op.
Proof. solve_decision. Defined.

Record World := {
  http : Raises Response;
  env : list (string * string);
  stored : list IPList;
  next_id : nat;
  policy_version : Z;
  failing : list Op
}.

Definition failure (what : string) : Exn :=
  {| exn_kind := OtherException; exn_msg := what |}.

Definition guarded {A} (op : Op) (w : World) (body : Raises A * World)
  : Raises A * World :=
  if bool_decide (op ∈ failing w) then (Raise (failure "API error"), w)
  else body.

Fixpoint lookup_env (key : string) (kvs : list (string * string))
  : option string :=
  match kvs with
  | [] => None
  | (k, v) :: rest => if String.eqb k key then Some v else lookup_env key rest
  end.

Definition has_name (n : string) (l : IPList) : bool :=
  bool_decide (name l = Some n).

Definition has_href (ref : option string) (l : IPList) : bool :=
  bool_decide (href l = ref).

Definition search (n : string) (w : World) : Raises (list IPList) * World :=
  guarded OpGet w (Ok (List.filter (has_name n) (stored w)), w).

Definition create (data : IPList) (w : World) : Raises IPList * World :=
  guarded OpCreate w
    (let new_iplist :=
       {| href := Some ("/orgs/1/sec_policy/draft/ip_lists/"
                        +:+ str_of_nat (next_id w));
          name := name data;
          description := description data;
          ip_ranges := Illumio.ip_ranges data |} in
     (Ok new_iplist,
      {| http := http w; env := env w;
         stored := stored w ++ [new_iplist];
         next_id := S (next_id w);
         policy_version := policy_version w;
         failing := failing w |})).

Definition overwrite (ref : option string) (data : IPList) (l : IPList)
  : IPList :=
  if has_href ref l then
    {| href := href l; name := name data; description := description data;
       ip_ranges := Illumio.ip_ranges data |}
  else l.

Definition update (ref : option string) (data : IPList) (w : World)
  : Raises (option IPList) * World :=
  guarded OpUpdate w
    (if existsb (has_href ref) (stored w) then
       (Ok None,
        {| http := http w; env := env w;
           stored := overwrite ref data <$> stored w;
           next_id := next_id w;
           policy_version := policy_version w;
           failing := failing w |})
     else (Raise (failure "404 Not Found"), w)).

Definition get_by_reference (ref : option string) (w : World)
  : Raises IPList * World :=
  guarded OpGetByReference w
    (match List.find (has_href ref) (stored w) with
     | Some l => (Ok l, w)
     | None => (Raise (failure "404 Not Found"), w)
     end).

Definition provision (change_description : string)
    (hrefs : list (option string)) (w : World)
  : Raises PolicyChangeset * World :=
  guarded OpProvision w
    (Ok {| version := (policy_version w + 1)%Z; workloads_affected := 0 |},
     {| http := http w; env := env w; stored := stored w;
        next_id := next_id w;
        policy_version := (policy_version w + 1)%Z;
        failing := failing w |}).

(** The constructor of [IPRange] in the reference world accepts a
    dotted-quad IPv4 address, alone or followed by a prefix length that
    leaves no host bit set, and refuses every other value. *)

(** [s.split(sep)] *)
Fixpoint split_at (sep : ascii) (s : string) : list string :=
  match s with
  | EmptyString => [EmptyString]
  | String c rest =>
      if Ascii.eqb c sep then EmptyString :: split_at sep rest
      else match split_at sep rest with
           | piece :: pieces => String c piece :: pieces
           | [] => [String c EmptyString]
           end
  end.

Fixpoint decimal_from (acc : N) (s : string) : option N :=
  match s with
  | EmptyString => Some acc
  | String c rest =>
      let n := N_of_ascii c in
      if (48 <=? n)%N && (n <=? 57)%N
      then decimal_from (acc * 10 + (n - 48))%N rest
      else None
  end.

(** A number of one to three decimal digits, without a leading zero. *)
Definition decimal (s : string) : option N :=
  match s with
  | EmptyString => None
  | String "0" (String _ _) => None
  | _ => if String.length s <=? 3 then decimal_from 0 s else None
  end.

Definition octet (s : string) : option N :=
  match decimal s with
  | Some n => if (n <=? 255)%N then Some n else None
  | None => None
  end.

Definition address (s : string) : option N :=
  match split_at "." s with
  | [a; b; c; d] =>
      match octet a, octet b, octet c, octet d with
      | Some a, Some b, Some c, Some d =>
          Some (((a * 256 + b) * 256 + c) * 256 + d)%N
      | _, _, _, _ => None
      end
  | _ => None
  end.

Definition is_network (s : string) : bool :=
  match split_at "/" s with
  | [a] => match address a with Some _ => true | None => false end
  | [a; prefix_length] =>
      match address a, decimal prefix_length with
      | Some n, Some bits =>
          (bits <=? 32)%N && (n mod 2 ^ (32 - bits) =? 0)%N
      | _, _ => false
      end
  | _ => false
  end.

Definition refuse (value : PyVal) : option Exn :=
  match value with
  | PyStr s =>
      if is_network s then None
      else Some (failure ("Invalid IP range: " +:+ s))
  | _ => Some (failure "Invalid IP range")
  end.

(** The reference engine stores ranges given as strings only. *)
Definition create_dyn (data : DynIPList) (w : World)
  : Raises IPList * World :=
  guarded OpCreate w (Raise (failure "406 Not Acceptable"), w).

Definition update_dyn (ref : option string) (data : DynIPList) (w : World)
  : Raises (option IPList) * World :=
  guarded OpUpdate w (Raise (failure "406 Not Acceptable"), w).

(** The reference constructor refuses every value that is not a string, so
    the comparison of such values is never reached in this world; it is
    given as raising the [TypeError] of an unsupported comparison. *)
#[global] Instance platform : Platform World := {|
  requests_get := fun _ _ w => (http w, w);
  environ_get := fun key w => lookup_env key (env w);
  set_iteration := elements;
  set_iteration_elements := fun s => Permutation_refl (elements s);
  pce_construct := fun _ _ _ w => guarded OpConstruct w (Ok tt, w);
  pce_set_credentials := fun _ _ w => guarded OpSetCredentials w (Ok tt, w);
  pce_set_tls_settings := fun _ w => guarded OpSetTls w (Ok tt, w);
  ip_lists_get := search;
  ip_lists_create := create;
  ip_lists_update := update;
  ip_lists_get_by_reference := get_by_reference;
  pce_provision_policy_changes := provision;
  IPRange_raises := refuse;
  compare_ip_ranges_dyn := fun _ _ =>
    ([], Raise {| exn_kind := TypeError;
                  exn_msg := "'<' not supported between instances" |});
  ip_lists_create_dyn := create_dyn;
  ip_lists_update_dyn := update_dyn
|}.

(** A successful HTTP answer whose body is [{"prefixes": [...]}]. *)
Definition answer (prefixes : list string) : Raises Response :=
  Ok {| raise_for_status := None;
        json := Ok (PyDict [("prefixes", PyList (PyStr <$> prefixes))]) |}.

Definition args0 : Args :=
  {| pce_host := Some "pce.company.com";
     api_key := Some "api_key_here";
     api_secret := Some "api_secret_here";
     org_id := 1;
     port := 443;
     iplist_name := "Zscaler IPs";
     no_verify_ssl := false |}.

Definition world0 (prefixes : list string) (lists : list IPList)
    (faults : list Op) : World :=
  {| http := answer prefixes; env := []; stored := lists; next_id := 1;
     policy_version := 0; failing := faults |}.

End Sim.

(** ** Vocabulary of the properties *)

(** [changed = (sorted(A) != sorted(B))], the value [compare_ip_ranges]
    is specified to return for the stored range objects and the new list. *)
Definition changed (existing_ip_ranges : list IPRange)
    (new_ip_ranges : list string) : bool :=
  bool_decide (sorted (from_ip_values existing_ip_ranges)
               ≠ sorted new_ip_ranges).

Definition is_create (ev : Event) : bool :=
  match ev with
  | IpListsCreate _ | IpListsCreateDyn _ => true
  | _ => false
  end.

Definition is_update (ev : Event) : bool :=
  match ev with
  | IpListsUpdate _ _ | IpListsUpdateDyn _ _ => true
  | _ => false
  end.

(** The write calls to the policy engine's IPLists. *)
Definition is_write (ev : Event) : bool := is_create ev || is_update ev.

Definition is_provision (ev : Event) : bool :=
  match ev with ProvisionPolicyChanges _ _ => true | _ => false end.

Definition is_stderr (ev : Event) : bool :=
  match ev with Stderr _ => true | _ => false end.

Definition creates (t : list Event) : list Event := List.filter is_create t.
Definition updates (t : list Event) : list Event := List.filter is_update t.
Definition writes (t : list Event) : list Event := List.filter is_write t.
Definition provisions (t : list Event) : list Event :=
  List.filter is_provision t.
Definition diagnostics (t : list Event) : list Event :=
  List.filter is_stderr t.

(** A fatal end: a diagnostic on the error stream and a non-zero exit,
    nothing returned. *)
Definition fatal {W A} (r : Outcome A * W * list Event) : Prop :=
  (exists status, outcome r = Exited status /\ status <> 0%Z)
  /\ diagnostics (trace r) <> [].

(** The lines printed by [print_diff] and by [compare_ip_ranges]. *)
Definition diff_lines `{Platform W} (label sign : string) (s : gset string)
  : list string :=
  if bool_decide (s = ∅) then []
  else
    ("  " +:+ label +:+ ": " +:+ str_of_nat (size s) +:+ " IP range(s)")
    :: (if bool_decide (size s ≤ 10) then
          (fun ip => "    " +:+ sign +:+ " " +:+ ip) <$> sorted (elements s)
        else
          ((fun ip => "    " +:+ sign +:+ " " +:+ ip)
             <$> sorted (take 10 (set_iteration s)))
          ++ ["    ... and " +:+ str_of_nat (size s - 10) +:+ " more"]).

Definition compare_lines `{Platform W} (A B : list string) : list string :=
  if bool_decide (sorted A ≠ sorted B) then
    ["IP ranges have changed:";
     "  Existing: " +:+ str_of_nat (length (sorted A)) +:+ " IP ranges";
     "  New: " +:+ str_of_nat (length (sorted B)) +:+ " IP ranges"]
    ++ diff_lines "Added" "+" (list_to_set B ∖ list_to_set A)
    ++ diff_lines "Removed" "-" (list_to_set A ∖ list_to_set B)
  else
    ["IP ranges are unchanged (" +:+ str_of_nat (length (sorted A))
     +:+ " IP ranges)"].

(** Computations that only print. *)

(** [m] returns [a], leaves the world alone and prints [lines]. *)
Definition prints {W A} (m : Run W A) (a : A) (lines : list string) : Prop :=
  forall w, m w = (Returned a, w, Stdout <$> lines).

(** No run of [m] produces an event selected by [P]. *)
Definition never {W A} (P : Event -> bool) (m : Run W A) : Prop :=
  forall w, List.filter P (trace (m w)) = [].

(** The reconcile step. *)

(** A str is valid UTF-8: it does not start with a continuation byte. *)
Definition starts_with_character (s : string) : Prop :=
  (split_chars s).1 = EmptyString.

(** The exception of the first entry of a new list that the constructor of
    [IPRange] refuses, if there is one. *)
Fixpoint refusal `{Platform W} (new : list string) : option Exn :=
  match new with
  | [] => None
  | ip_range :: rest =>
      match IPRange_raises (PyStr ip_range) with
      | Some e => Some e
      | None => refusal rest
      end
  end.

(** The object the script submits for a new list whose entries are all
    accepted: the name, the fixed description, and one range per entry. *)
Definition iplist_data (iplist_name : string) (ip_ranges : list string)
  : IPList :=
  new_IPList iplist_name AUTO_DESCRIPTION
    ((fun ip_range => {| from_ip := Some ip_range |}) <$> ip_ranges).

(** The traces of the reconcile step. *)

Definition searching (iplist_name : string) : list Event :=
  [Stdout ("Searching for existing IPList: " +:+ iplist_name +:+ "...");
   IpListsGet iplist_name].

Definition found `{Platform W} (iplist_name : string) (existing : IPList)
    (new : list string) : list Event :=
  searching iplist_name
  ++ [Stdout ("Found existing IPList (href: "
              +:+ str_of_opt (href existing) +:+ ")")]
  ++ (Stdout <$> compare_lines
        (from_ip_values (default [] (Illumio.ip_ranges existing))) new).

Definition reconcile_error (e : Exn) : Event :=
  Stderr ("Error creating/updating IPList: " +:+ exn_msg e).

(** The comparison. *)

Definition has_from_ip (ip_range : IPRange) : bool := truthy (from_ip ip_range).

(** Two IPList objects with the same reference, name and description and
    the same ranges up to their order. *)
Definition same_content (d d' : IPList) : Prop :=
  href d = href d' /\ name d = name d' /\ description d = description d'
  /\ default [] (Illumio.ip_ranges d) ≡ₚ default [] (Illumio.ip_ranges d').

Inductive same_write : Event -> Event -> Prop :=
| same_create d d' :
    same_content d d' -> same_write (IpListsCreate d) (IpListsCreate d')
| same_update ref d d' :
    same_content d d' -> same_write (IpListsUpdate ref d) (IpListsUpdate ref d').

(** The calls to the policy engine, in order. *)
Definition is_call (ev : Event) : bool :=
  match ev with
  | Stdout _ | Stderr _ | HttpGet _ _ => false
  | _ => true
  end.

Definition calls (t : list Event) : list Event := List.filter is_call t.

(** The fetch step. *)

(** The [except] clauses of [fetch_zscaler_ips]: the diagnostic written for
    an exception they catch. *)
Definition fetch_diagnostic (e : Exn) : option string :=
  match exn_kind e with
  | RequestException => Some ("Error fetching Zscaler IPs: " +:+ exn_msg e)
  | KeyError | ValueError =>
      Some ("Error parsing Zscaler response: " +:+ exn_msg e)
  | _ => None
  end.

Definition fetching : list Event :=
  [Stdout ("Fetching IP addresses from " +:+ ZSCALER_API_URL +:+ "...");
   HttpGet ZSCALER_API_URL 30].

(** How the fetch ends when [e] is raised inside its [try] block. *)
Definition fetch_raised {W} (e : Exn) (w : W)
  : Outcome PyVal * W * list Event :=
  match fetch_diagnostic e with
  | Some text => (Exited 1, w, fetching ++ [Stderr text])
  | None => (Raised e, w, fetching)
  end.

(** The failures of the claim: the transport fails (timeout, connection
    error: [requests.get] raises; non-success status: [raise_for_status]
    raises), or the body is not JSON ([json()] raises).  The [requests]
    package raises subclasses of [RequestException] for the former and a
    [ValueError] that is also a [RequestException] for the latter. *)
Inductive fetch_failure : Raises Response -> Exn -> Prop :=
| transport_failure e :
    exn_kind e = RequestException -> fetch_failure (Raise e) e
| status_failure response e :
    raise_for_status response = Some e ->
    exn_kind e = RequestException ->
    fetch_failure (Ok response) e
| decode_failure response e :
    raise_for_status response = None ->
    json response = Raise e ->
    exn_kind e = RequestException \/ exn_kind e = ValueError ->
    fetch_failure (Ok response) e.

(** What the fetch does with the answer of [requests.get], case by case. *)
Definition fetch_result {W} (answer : Raises Response) (w1 : W)
  : Outcome PyVal * W * list Event :=
  match answer with
  | Raise e => fetch_raised e w1
  | Ok response =>
      match raise_for_status response with
      | Some e => fetch_raised e w1
      | None =>
          match json response with
          | Raise e => fetch_raised e w1
          | Ok data =>
              match Py.get data "prefixes" (PyList []) with
              | Raise e => fetch_raised e w1
              | Ok prefixes =>
                  match len prefixes with
                  | Raise e => fetch_raised e w1
                  | Ok n =>
                      (Returned prefixes, w1,
                       fetching
                       ++ [Stdout ("Successfully fetched " +:+ str_of_nat n
                                   +:+ " IP ranges from Zscaler")])
                  end
              end
          end
      end
  end.

(** Provisioning and the whole run. *)

Definition provision_description (iplist_href : option string) : string :=
  "Provision Zscaler IPList: " +:+ str_of_opt iplist_href.

Definition provision_call (iplist_href : option string) : Event :=
  ProvisionPolicyChanges (provision_description iplist_href) [iplist_href].

Definition provision_error (e : Exn) : Event :=
  Stderr ("Error provisioning policy changes: " +:+ exn_msg e).

(** What [provision_policy_changes] adds to the trace, given how the call to
    the policy engine ended. *)
Definition provision_trace (iplist_href : option string)
    (answer : Raises PolicyChangeset) : list Event :=
  [Stdout ("Provisioning policy changes for IPList: "
           +:+ str_of_opt iplist_href +:+ "...");
   provision_call iplist_href]
  ++ match answer with
     | Ok changeset =>
         [Stdout "Successfully provisioned policy changes";
          Stdout ("Policy version: " +:+ str_of_Z (version changeset));
          Stdout ("Workloads affected: "
                  +:+ str_of_Z (workloads_affected changeset))]
     | Raise e => [provision_error e]
     end.

(** In the run of [main] from [w] the reconcile step is reached and returns
    [result], in world [w2], the trace so far being [t]. *)
Definition reconcile_step_returns `{Platform W} (args : Args) (w : W)
    (result : IPList * bool) (w2 : W) (t : list Event) : Prop :=
  exists fetched w1 t1 t2,
    main_prepare args w = (Returned fetched, w1, t1)
    /\ reconcile_step (iplist_name args) fetched w1
       = (Returned result, w2, t2)
    /\ t = t1 ++ t2.

(** In the run of [main] from [w] the reconcile step is reached with a list
    of strings and returns [result], in world [w2], the trace so far being
    [t]. *)
Definition reconcile_returns `{Platform W} (args : Args) (w : W)
    (result : IPList * bool) (w2 : W) (t : list Event) : Prop :=
  exists fetched w1 t1 ip_ranges t2,
    main_prepare args w = (Returned fetched, w1, t1)
    /\ as_str_list fetched = Some ip_ranges
    /\ create_or_update_iplist (iplist_name args) ip_ranges w1
       = (Returned result, w2, t2)
    /\ t = t1 ++ t2.

Definition completed : Event :=
  Stdout (nl +:+ "✓ Script completed successfully!").

Definition completed_unchanged : Event :=
  Stdout (nl +:+ "✓ Script completed successfully (no changes to provision)!").

(** More vocabulary for the fetch step and for [main]. *)

(** The values [len] accepts. *)
Definition sized (v : PyVal) : bool :=
  match v with
  | PyList _ | PyStr _ | PyDict _ => true
  | _ => false
  end.

Definition is_print (ev : Event) : bool :=
  match ev with Stdout _ | Stderr _ => true | _ => false end.

(** Lines 277-286: the diagnostic for the first missing credential, in the
    order host, key, secret. *)
Definition missing_credential (args : Args) : option string :=
  if negb (truthy (pce_host args)) then
    Some "Error: --pce-host or ILLUMIO_PCE_HOST environment variable is required"
  else if negb (truthy (api_key args)) then
    Some "Error: --api-key or ILLUMIO_API_KEY environment variable is required"
  else if negb (truthy (api_secret args)) then
    Some "Error: --api-secret or ILLUMIO_API_SECRET environment variable is required"
  else None.

(** Lines 300-316: setting up the client fails with [e], leaving the world
    [w2]: the constructor raises, or [set_credentials] does, or, when
    [--no-verify-ssl] is given, [set_tls_settings] does. *)
Inductive connect_fails `{Platform W} (args : Args) (w1 : W)
  : Exn -> W -> Prop :=
| construct_fails e w2 :
    pce_construct (pce_host args) (port args) (org_id args) w1
    = (Raise e, w2) ->
    connect_fails args w1 e w2
| set_credentials_fails w2 e w3 :
    pce_construct (pce_host args) (port args) (org_id args) w1
    = (Ok tt, w2) ->
    pce_set_credentials (api_key args) (api_secret args) w2 = (Raise e, w3) ->
    connect_fails args w1 e w3
| set_tls_settings_fails w2 w3 e w4 :
    pce_construct (pce_host args) (port args) (org_id args) w1
    = (Ok tt, w2) ->
    pce_set_credentials (api_key args) (api_secret args) w2 = (Ok tt, w3) ->
    no_verify_ssl args = true ->
    pce_set_tls_settings false w3 = (Raise e, w4) ->
    connect_fails args w1 e w4.

(** Every [sys.exit] reached by [m] has status 1. *)
Definition exits_1 {W A} (m : Run W A) : Prop :=
  forall w status, outcome (m w) = Exited status -> status = 1%Z.

(** More scenarios. *)

Module Scenario2.
Import Sim.

Definition eleven : gset string :=
  list_to_set ["10.0.0.0/8"; "10.1.0.0/16"; "10.2.0.0/16"; "10.3.0.0/16";
               "10.4.0.0/16"; "10.5.0.0/16"; "10.6.0.0/16"; "10.7.0.0/16";
               "10.8.0.0/16"; "10.9.0.0/16"; "172.16.0.0/12"].

Definition args_no_key : Args :=
  {| pce_host := Some "pce.company.com";
     api_key := None;
     api_secret := Some "api_secret_here";
     org_id := 1;
     port := 443;
     iplist_name := "Zscaler IPs";
     no_verify_ssl := false |}.

End Scenario2.

(** ** Scenarios on the reference world *)

Module Scenario.
Import Sim.

(** The scenario of the specification: the stored list holds 1.1.1.0/24 and
    2.2.2.0/24. *)
Definition stored_iplist : IPList :=
  {| href := Some "/orgs/1/sec_policy/draft/ip_lists/7";
     name := Some "Zscaler IPs";
     description := Some "Zscaler IP ranges - Auto-updated";
     ip_ranges := Some [{| from_ip := Some "1.1.1.0/24" |};
                        {| from_ip := Some "2.2.2.0/24" |}] |}.

Definition same_ranges : list string := ["2.2.2.0/24"; "1.1.1.0/24"].
Definition new_ranges : list string := ["2.2.2.0/24"; "3.3.3.0/24"].
Definition new_ranges_reordered : list string := ["3.3.3.0/24"; "2.2.2.0/24"].

Definition updated_iplist : IPList :=
  {| href := Some "/orgs/1/sec_policy/draft/ip_lists/7";
     name := Some "Zscaler IPs";
     description := Some "Zscaler IP ranges - Auto-updated";
     ip_ranges := Some [{| from_ip := Some "2.2.2.0/24" |};
                        {| from_ip := Some "3.3.3.0/24" |}] |}.

Definition world_unchanged : World := world0 same_ranges [stored_iplist] [].
Definition world_changed : World := world0 new_ranges [stored_iplist] [].
Definition world_provision_fails : World :=
  world0 new_ranges [stored_iplist] [OpProvision].

Definition world_updated (faults : list Op) : World :=
  world0 new_ranges [updated_iplist] faults.

(** A world whose HTTP answer has the given body. *)
Definition world_of_body (body : PyVal) : World :=
  {| http := Ok {| raise_for_status := None; json := Ok body |};
     env := []; stored := [stored_iplist]; next_id := 1;
     policy_version := 0; failing := [] |}.

Definition timeout : Exn :=
  {| exn_kind := RequestException; exn_msg := "Read timed out." |}.

Definition world_timeout : World :=
  {| http := Raise timeout;
     env := []; stored := [stored_iplist]; next_id := 1;
     policy_version := 0; failing := [] |}.

Definition blank_ranges : list IPRange :=
  [{| from_ip := None |}; {| from_ip := Some "" |}].

(** A stored list that holds a value the constructor of [IPRange] refuses
    (a network with host bits set), and feeds with such entries. *)
Definition stored_host_bits : IPList :=
  {| href := Some "/orgs/1/sec_policy/draft/ip_lists/7";
     name := Some "Zscaler IPs";
     description := Some "Zscaler IP ranges - Auto-updated";
     ip_ranges := Some [{| from_ip := Some "10.0.0.1/8" |}] |}.

Definition host_bits_ranges : list string := ["10.0.0.1/8"].
Definition ranges_with_host_bits : list string :=
  ["2.2.2.0/24"; "10.0.0.1/8"].
Definition not_ranges : list string := ["not a range"].

(** A stored list with the given ranges. *)
Definition stored_with (existing : list IPRange) : IPList :=
  {| href := Some "/orgs/1/sec_policy/draft/ip_lists/7";
     name := Some "Zscaler IPs";
     description := Some "Zscaler IP ranges - Auto-updated";
     ip_ranges := Some existing |}.

End Scenario.

(** * Properties *)

(** ** Sorting *)

Lemma sorted_Permutation (l : list string) : sorted l ≡ₚ l.
Proof. apply merge_sort_Permutation. Qed.

Lemma sorted_Sorted (l : list string) : Sorted String.le (sorted l).
Proof. apply Sorted_merge_sort, _. Qed.

(** Two lists sort to the same list exactly when they are permutations of
    each other. *)
Lemma sorted_eq_iff (l1 l2 : list string) :
  sorted l1 = sorted l2 <-> l1 ≡ₚ l2.
Proof.
  split.
  - intros Heq. rewrite <- (sorted_Permutation l1), Heq.
    apply sorted_Permutation.
  - intros Hperm.
    apply (Sorted_unique String.le); try apply sorted_Sorted.
    rewrite !sorted_Permutation. exact Hperm.
Qed.

Lemma sorted_length (l : list string) : length (sorted l) = length l.
Proof. apply Permutation_length, sorted_Permutation. Qed.

Lemma list_to_set_sorted (l : list string) :
  list_to_set (sorted l) =@{gset string} list_to_set l.
Proof. apply list_to_set_perm_L, sorted_Permutation. Qed.

Lemma added_sorted (A B : list string) :
  added (sorted A) (sorted B) = list_to_set B ∖ list_to_set A.
Proof. unfold added. by rewrite !list_to_set_sorted. Qed.

Lemma removed_sorted (A B : list string) :
  removed (sorted A) (sorted B) = list_to_set A ∖ list_to_set B.
Proof. unfold removed. by rewrite !list_to_set_sorted. Qed.

(** ** Computations that only print *)

Section Printing.
Context {W : Type}.

Lemma prints_ret {A} (a : A) : prints (W:=W) (ret a) a [].
Proof. intros w. reflexivity. Qed.

Lemma prints_print (text : string) : prints (W:=W) (print text) tt [text].
Proof. intros w. reflexivity. Qed.

Lemma prints_bind {A B} (m : Run W A) (k : A -> Run W B) a b l1 l2 :
  prints m a l1 -> prints (k a) b l2 -> prints (bind m k) b (l1 ++ l2).
Proof.
  intros Hm Hk w. unfold bind. rewrite Hm, Hk. by rewrite fmap_app.
Qed.

Lemma prints_for_each {A} (items : list A) (line : A -> string) :
  prints (W:=W) (for_each items (fun x => print (line x))) tt
         (line <$> items).
Proof.
  induction items as [|x items IH]; simpl.
  - apply prints_ret.
  - apply (prints_bind _ _ tt tt [line x]); [apply prints_print | exact IH].
Qed.

End Printing.

Section ScriptFacts.
Context {W : Type} `{Platform W}.

Lemma print_diff_prints (label sign : string) (s : gset string) :
  prints (print_diff label sign s) tt (diff_lines label sign s).
Proof.
  unfold print_diff, diff_lines.
  destruct (bool_decide (s = ∅)); [apply prints_ret|].
  eapply (prints_bind _ _ tt tt [_]); [apply prints_print|].
  destruct (bool_decide (size s ≤ 10)).
  - apply prints_for_each.
  - eapply (prints_bind _ _ tt tt); [apply prints_for_each|].
    apply prints_print.
Qed.

(** [compare_ip_ranges] returns [changed], touches nothing and prints
    [compare_lines], whose diff part is computed from [set(B) - set(A)] and
    [set(A) - set(B)]. *)
Lemma compare_ip_ranges_prints (existing : list IPRange) (B : list string) :
  prints (compare_ip_ranges existing B) (changed existing B)
         (compare_lines (from_ip_values existing) B).
Proof.
  unfold compare_ip_ranges, compare_lines, changed.
  rewrite added_sorted, removed_sorted.
  set (d := bool_decide _).
  rewrite <- (app_nil_r (if d then _ else _)).
  eapply prints_bind; [|apply prints_ret].
  destruct d.
  - eapply (prints_bind _ _ tt tt [_]); [apply prints_print|].
    eapply (prints_bind _ _ tt tt [_]); [apply prints_print|].
    eapply (prints_bind _ _ tt tt [_]); [apply prints_print|].
    eapply (prints_bind _ _ tt tt); apply print_diff_prints.
  - apply prints_print.
Qed.

End ScriptFacts.

Section Construction.
Context {W : Type} `{Platform W}.

(** Line 130 goes through exactly when the constructor accepts every entry;
    the objects it builds then hold the entries, in order.  Otherwise it
    raises the exception of the first entry that is refused. *)
Lemma comprehension_new_IPRange (new : list string) :
  comprehension new_IPRange new
  = match refusal new with
    | Some e => Raise e
    | None => Ok ((fun ip_range => {| from_ip := Some ip_range |}) <$> new)
    end.
Proof.
  induction new as [|x new IH]; [done|]. cbn [comprehension refusal].
  unfold new_IPRange at 1.
  destruct (IPRange_raises (PyStr x)) as [e|]; [done|].
  rewrite IH. by destruct (refusal new).
Qed.

Lemma refusal_None_iff (new : list string) :
  refusal new = None
  <-> Forall (fun x => IPRange_raises (PyStr x) = None) new.
Proof.
  induction new as [|x new IH]; cbn [refusal].
  - split; [constructor | done].
  - destruct (IPRange_raises (PyStr x)) as [e|] eqn:Hx.
    + split; [done|]. intros Hall. inversion Hall; congruence.
    + rewrite IH. split; [by constructor|]. by intros Hall; inversion Hall.
Qed.

Lemma refusal_None (new : list string) :
  refusal new = None ->
  comprehension new_IPRange new
  = Ok ((fun ip_range => {| from_ip := Some ip_range |}) <$> new).
Proof. intros Haccepted. by rewrite comprehension_new_IPRange, Haccepted. Qed.

Lemma refusal_Some (new : list string) (e : Exn) :
  refusal new = Some e -> comprehension new_IPRange new = Raise e.
Proof. intros Hrefused. by rewrite comprehension_new_IPRange, Hrefused. Qed.

Lemma refusal_Permutation (B B' : list string) :
  B ≡ₚ B' -> refusal B = None <-> refusal B' = None.
Proof. intros HB. rewrite !refusal_None_iff. by rewrite HB. Qed.

End Construction.

(** ** The shape of the feed

    [reconcile_step] runs the function on the strings a str or a dict
    iterates over.  The function also takes the length of its argument
    (line 148): it is the number of these strings. *)

Lemma code_points_split_chars (s : string) :
  code_points s = length (split_chars s).2.
Proof.
  induction s as [|c s IH]; [done|]. cbn [code_points split_chars].
  destruct (split_chars s) as [continuation following]. cbn [snd] in IH.
  destruct ((128 <=? N_of_ascii c)%N && (N_of_ascii c <? 192)%N);
    cbn [snd length]; lia.
Qed.

Lemma chars_length (s : string) :
  starts_with_character s -> length (chars s) = code_points s.
Proof.
  unfold starts_with_character, chars. rewrite code_points_split_chars.
  destruct (split_chars s) as [continuation following]. cbn [fst snd].
  by intros ->.
Qed.

Lemma str_items_length (items : list PyVal) (l : list string) :
  str_items items = Some l -> length l = length items.
Proof.
  revert l. induction items as [|v items IH]; intros l; [by intros [= <-]|].
  destruct v; try done. cbn [str_items].
  destruct (str_items items) as [l'|]; [|done].
  intros [= <-]. cbn [length]. by rewrite (IH l').
Qed.

Lemma keys_after_spec (seen : list string) (kvs : list (string * PyVal)) :
  NoDup (keys_after seen kvs)
  /\ forall k, k ∈ keys_after seen kvs <-> k ∈ kvs.*1 /\ k ∉ seen.
Proof.
  revert seen. induction kvs as [|[k v] kvs IH]; intros seen.
  { split; [constructor|]. intros k. split; [by intros ?%elem_of_nil|].
    by intros [?%elem_of_nil _]. }
  cbn [keys_after fmap list_fmap fst].
  case_bool_decide as Hseen.
  - destruct (IH seen) as [Hnodup Hin]. split; [done|].
    intros k'. rewrite Hin, elem_of_cons. split; [tauto|].
    intros [[-> | Hk] Hnew]; [done | tauto].
  - destruct (IH (k :: seen)) as [Hnodup Hin]. split.
    + constructor; [|done]. rewrite Hin, elem_of_cons. tauto.
    + intros k'. rewrite !elem_of_cons, Hin, elem_of_cons.
      destruct (decide (k' = k)) as [-> | Hne]; tauto.
Qed.

Lemma dict_keys_length (kvs : list (string * PyVal)) :
  length (dict_keys kvs) = size (list_to_set kvs.*1 : gset string).
Proof.
  destruct (keys_after_spec [] kvs) as [Hnodup Hin].
  unfold dict_keys. rewrite <- (size_list_to_set (C:=gset string)) by done.
  f_equal. apply set_eq. intros k. rewrite !elem_of_list_to_set, Hin.
  split; [tauto|]. intros Hk. split; [done|]. apply not_elem_of_nil.
Qed.

Lemma as_strings_len (v : PyVal) (l : list string) :
  as_strings v = Some l ->
  (forall s, v = PyStr s -> starts_with_character s) ->
  len v = Ok (length l).
Proof.
  destruct v as [| | | |s|items|kvs]; try done; cbn [as_strings len].
  - intros [= <-] Hs. by rewrite chars_length by by apply Hs.
  - intros Hl _. by rewrite (str_items_length _ _ Hl).
  - intros [= <-] _. by rewrite dict_keys_length.
Qed.

Lemma as_strings_iterate (v : PyVal) (l : list string) :
  as_strings v = Some l -> iterate v = Ok (PyStr <$> l).
Proof.
  destruct v as [| | | |s|items|kvs]; try done; cbn [as_strings iterate];
    try by intros [= <-].
  intros Hl. f_equal. revert l Hl.
  induction items as [|v items IH]; intros l; [by intros [= <-]|].
  destruct v; try done. cbn [str_items].
  destruct (str_items items) as [l'|]; [|done].
  intros [= <-]. cbn. by rewrite (IH l').
Qed.

Section Reconcile.
Context {W : Type} `{Platform W}.
Implicit Types (w : W) (e : Exn) (existing : IPList) (new : list string).

Ltac run_reconcile :=
  unfold create_or_update_iplist, try_except, bind, call, lift, raise, print,
    print_err, emit, sys_exit, ret, found, searching, reconcile_error; simpl.

Lemma reconcile_search_fails iplist_name new w e w1 :
  ip_lists_get iplist_name w = (Raise e, w1) ->
  create_or_update_iplist iplist_name new w
  = (Exited 1, w1, searching iplist_name ++ [reconcile_error e]).
Proof. intros Hget. run_reconcile. by rewrite Hget. Qed.

(** Line 130: an entry the constructor refuses ends the run right after the
    lookup, whatever the lookup returned. *)
Lemma reconcile_refused iplist_name new w iplists w1 e :
  ip_lists_get iplist_name w = (Ok iplists, w1) ->
  refusal new = Some e ->
  create_or_update_iplist iplist_name new w
  = (Exited 1, w1, searching iplist_name ++ [reconcile_error e]).
Proof.
  intros Hget Hrefused. run_reconcile. rewrite Hget. simpl.
  by rewrite (refusal_Some _ _ Hrefused).
Qed.

Lemma reconcile_create iplist_name new w w1 created w2 :
  ip_lists_get iplist_name w = (Ok [], w1) ->
  refusal new = None ->
  ip_lists_create (iplist_data iplist_name new) w1 = (Ok created, w2) ->
  create_or_update_iplist iplist_name new w
  = (Returned (created, true), w2,
     searching iplist_name
     ++ [Stdout ("IPList not found. Creating new IPList: "
                 +:+ iplist_name +:+ "...");
         IpListsCreate (iplist_data iplist_name new);
         Stdout ("Successfully created IPList: " +:+ iplist_name);
         Stdout ("IPList href: " +:+ str_of_opt (href created))]).
Proof.
  intros Hget Haccepted Hcreate. run_reconcile. rewrite Hget. simpl.
  rewrite (refusal_None _ Haccepted). simpl.
  fold (iplist_data iplist_name new). by rewrite Hcreate.
Qed.

Lemma reconcile_create_fails iplist_name new w w1 e w2 :
  ip_lists_get iplist_name w = (Ok [], w1) ->
  refusal new = None ->
  ip_lists_create (iplist_data iplist_name new) w1 = (Raise e, w2) ->
  create_or_update_iplist iplist_name new w
  = (Exited 1, w2,
     searching iplist_name
     ++ [Stdout ("IPList not found. Creating new IPList: "
                 +:+ iplist_name +:+ "...");
         IpListsCreate (iplist_data iplist_name new);
         reconcile_error e]).
Proof.
  intros Hget Haccepted Hcreate. run_reconcile. rewrite Hget. simpl.
  rewrite (refusal_None _ Haccepted). simpl.
  fold (iplist_data iplist_name new). by rewrite Hcreate.
Qed.

Lemma reconcile_unchanged iplist_name new w existing rest w1 :
  ip_lists_get iplist_name w = (Ok (existing :: rest), w1) ->
  refusal new = None ->
  changed (default [] (Illumio.ip_ranges existing)) new = false ->
  create_or_update_iplist iplist_name new w
  = (Returned (existing, false), w1,
     found iplist_name existing new
     ++ [Stdout ("IPList '" +:+ iplist_name
                 +:+ "' is already up to date. No update needed.")]).
Proof.
  intros Hget Haccepted Hsame. run_reconcile. rewrite Hget. simpl.
  rewrite (refusal_None _ Haccepted). simpl.
  rewrite compare_ip_ranges_prints, Hsame. reflexivity.
Qed.

Lemma reconcile_update iplist_name new w existing rest w1 answer w2
    updated w3 :
  ip_lists_get iplist_name w = (Ok (existing :: rest), w1) ->
  refusal new = None ->
  changed (default [] (Illumio.ip_ranges existing)) new = true ->
  ip_lists_update (href existing) (iplist_data iplist_name new) w1
  = (Ok answer, w2) ->
  ip_lists_get_by_reference (href existing) w2 = (Ok updated, w3) ->
  create_or_update_iplist iplist_name new w
  = (Returned (updated, true), w3,
     found iplist_name existing new
     ++ [Stdout ("Updating IPList with " +:+ str_of_nat (length new)
                 +:+ " IP ranges...");
         IpListsUpdate (href existing) (iplist_data iplist_name new);
         IpListsGetByReference (href existing);
         Stdout ("Successfully updated IPList: " +:+ iplist_name);
         Stdout ("IPList href: " +:+ str_of_opt (href updated))]).
Proof.
  intros Hget Haccepted Hdiff Hupdate Hrefetch. run_reconcile.
  rewrite Hget. simpl. rewrite (refusal_None _ Haccepted). simpl.
  rewrite compare_ip_ranges_prints, Hdiff. simpl.
  fold (iplist_data iplist_name new).
  rewrite Hupdate, Hrefetch. reflexivity.
Qed.

Lemma reconcile_update_fails iplist_name new w existing rest w1 e w2 :
  ip_lists_get iplist_name w = (Ok (existing :: rest), w1) ->
  refusal new = None ->
  changed (default [] (Illumio.ip_ranges existing)) new = true ->
  ip_lists_update (href existing) (iplist_data iplist_name new) w1
  = (Raise e, w2) ->
  create_or_update_iplist iplist_name new w
  = (Exited 1, w2,
     found iplist_name existing new
     ++ [Stdout ("Updating IPList with " +:+ str_of_nat (length new)
                 +:+ " IP ranges...");
         IpListsUpdate (href existing) (iplist_data iplist_name new);
         reconcile_error e]).
Proof.
  intros Hget Haccepted Hdiff Hupdate. run_reconcile.
  rewrite Hget. simpl. rewrite (refusal_None _ Haccepted). simpl.
  rewrite compare_ip_ranges_prints, Hdiff. simpl.
  fold (iplist_data iplist_name new).
  rewrite Hupdate. simpl. by rewrite <- ?app_assoc.
Qed.

Lemma reconcile_refetch_fails iplist_name new w existing rest w1 answer w2
    e w3 :
  ip_lists_get iplist_name w = (Ok (existing :: rest), w1) ->
  refusal new = None ->
  changed (default [] (Illumio.ip_ranges existing)) new = true ->
  ip_lists_update (href existing) (iplist_data iplist_name new) w1
  = (Ok answer, w2) ->
  ip_lists_get_by_reference (href existing) w2 = (Raise e, w3) ->
  create_or_update_iplist iplist_name new w
  = (Exited 1, w3,
     found iplist_name existing new
     ++ [Stdout ("Updating IPList with " +:+ str_of_nat (length new)
                 +:+ " IP ranges...");
         IpListsUpdate (href existing) (iplist_data iplist_name new);
         IpListsGetByReference (href existing);
         reconcile_error e]).
Proof.
  intros Hget Haccepted Hdiff Hupdate Hrefetch. run_reconcile.
  rewrite Hget. simpl. rewrite (refusal_None _ Haccepted). simpl.
  rewrite compare_ip_ranges_prints, Hdiff. simpl.
  fold (iplist_data iplist_name new).
  rewrite Hupdate, Hrefetch. simpl. by rewrite <- ?app_assoc.
Qed.

End Reconcile.

(** ** Selecting events from a trace *)

Lemma filter_printed (P : Event -> bool) (lines : list string) :
  (forall text, P (Stdout text) = false) ->
  List.filter P (Stdout <$> lines) = [].
Proof.
  intros HP. induction lines as [|line lines IH]; simpl; [done|].
  by rewrite HP.
Qed.

Section Never.
Context {W : Type}.

Variable P : Event -> bool.

Lemma never_ret {A} (a : A) : never (W:=W) P (ret a).
Proof. intros w. reflexivity. Qed.

Lemma never_sys_exit {A} status : never P (@sys_exit W A status).
Proof. intros w. reflexivity. Qed.

Lemma never_raise {A} e : never P (@raise W A e).
Proof. intros w. reflexivity. Qed.

Lemma never_lift {A} (r : Raises A) : never (W:=W) P (lift r).
Proof. destruct r; [apply never_ret | apply never_raise]. Qed.

Lemma never_emit ev : P ev = false -> never P (@emit W ev).
Proof. intros HP w. unfold emit, trace. simpl. by rewrite HP. Qed.

Lemma never_call {A} ev (op : W -> Raises A * W) :
  P ev = false -> never P (call ev op).
Proof.
  intros HP w. unfold call, trace.
  destruct (op w) as [[a|e] w1]; simpl; by rewrite HP.
Qed.

Lemma never_local {A} (op : W -> Raises A * W) : never P (local op).
Proof. intros w. unfold local, trace. by destruct (op w) as [[a|e] w1]. Qed.

Lemma never_bind {A B} (m : Run W A) (k : A -> Run W B) :
  never P m -> (forall a, never P (k a)) -> never P (bind m k).
Proof.
  intros Hm Hk w. specialize (Hm w). unfold bind, trace in *.
  destruct (m w) as [[[a|status|e] w1] t1]; simpl in *; try done.
  specialize (Hk a w1). unfold trace in Hk.
  destruct (k a w1) as [[o w2] t2]; simpl in *.
  by rewrite List.filter_app, Hm, Hk.
Qed.

Lemma never_try_except {A} (body : Run W A) handler :
  never P body ->
  (forall e h, handler e = Some h -> never P h) ->
  never P (try_except body handler).
Proof.
  intros Hbody Hhandler w. specialize (Hbody w). unfold try_except, trace in *.
  destruct (body w) as [[[a|status|e] w1] t1]; simpl in *; try done.
  destruct (handler e) as [h|] eqn:Hh; simpl; [|done].
  specialize (Hhandler e h Hh w1). unfold trace in Hhandler.
  destruct (h w1) as [[o w2] t2]; simpl in *.
  by rewrite List.filter_app, Hbody, Hhandler.
Qed.

Lemma never_prints {A} (m : Run W A) a lines :
  (forall text, P (Stdout text) = false) -> prints m a lines -> never P m.
Proof.
  intros HP Hm w. rewrite Hm. unfold trace. simpl. by apply filter_printed.
Qed.

End Never.

(** Discharges [never P m] for the straight-line parts of the script. *)
Ltac never_step :=
  match goal with
  | |- never _ (bind _ _) => apply never_bind; [|intros ?]
  | |- never _ (ret _) => apply never_ret
  | |- never _ (sys_exit _) => apply never_sys_exit
  | |- never _ (raise _) => apply never_raise
  | |- never _ (lift _) => apply never_lift
  | |- never _ (local _) => apply never_local
  | |- never _ (print _) => apply never_emit; reflexivity
  | |- never _ (print_err _) => apply never_emit; reflexivity
  | |- never _ (call _ _) => apply never_call; reflexivity
  | |- never _ (if ?b then _ else _) => destruct b
  | |- never _ (match ?x with Some _ => _ | None => _ end) => destruct x
  | |- never _ (match ?x with [] => _ | _ :: _ => _ end) => destruct x
  end.

Section ReconcileWrites.
Context {W : Type} `{Platform W}.

Ltac select_events :=
  unfold trace, found, searching, reconcile_error; simpl;
  rewrite ?List.filter_app, ?filter_printed by done; simpl.

(** The write calls of a reconcile run are decided by the lookup, by the
    constructor of [IPRange] and by the comparison. *)
Lemma reconcile_writes (iplist_name : string) (new : list string) (w : W) :
  writes (trace (create_or_update_iplist iplist_name new w))
  = match ip_lists_get iplist_name w, refusal new with
    | (Raise _, _), _ | (Ok _, _), Some _ => []
    | (Ok [], _), None => [IpListsCreate (iplist_data iplist_name new)]
    | (Ok (existing :: _), _), None =>
        if changed (default [] (Illumio.ip_ranges existing)) new
        then [IpListsUpdate (href existing) (iplist_data iplist_name new)]
        else []
    end.
Proof.
  unfold writes.
  destruct (ip_lists_get iplist_name w) as [[iplists|e] w1] eqn:Hget;
    [|erewrite reconcile_search_fails by eassumption; by select_events].
  destruct (refusal new) as [e|] eqn:Haccepted.
  { erewrite reconcile_refused by eassumption.
    destruct iplists; by select_events. }
  destruct iplists as [|existing rest].
  - destruct (ip_lists_create (iplist_data iplist_name new) w1)
      as [[created|e] w2] eqn:Hcreate.
    + erewrite reconcile_create by eassumption. by select_events.
    + erewrite reconcile_create_fails by eassumption. by select_events.
  - destruct (changed (default [] (Illumio.ip_ranges existing)) new)
      eqn:Hdiff.
    + destruct (ip_lists_update (href existing)
                  (iplist_data iplist_name new) w1)
        as [[answer|e] w2] eqn:Hupdate.
      * destruct (ip_lists_get_by_reference (href existing) w2)
          as [[updated|e] w3] eqn:Hrefetch.
        -- erewrite reconcile_update by eassumption. by select_events.
        -- erewrite reconcile_refetch_fails by eassumption. by select_events.
      * erewrite reconcile_update_fails by eassumption. by select_events.
    + erewrite reconcile_unchanged by eassumption. by select_events.
Qed.

(** A reconcile run never provisions. *)
Lemma reconcile_never_provisions (iplist_name : string) (new : list string) :
  never is_provision (create_or_update_iplist iplist_name new).
Proof.
  unfold create_or_update_iplist.
  apply never_try_except.
  - repeat never_step.
    eapply never_prints; [done | apply compare_ip_ranges_prints].
  - intros e h [= <-]. repeat never_step.
Qed.

(** The same on a feed that does not iterate over strings. *)

Lemma compare_ip_ranges_on_run (existing : list IPRange) (new : PyVal) (w : W) :
  compare_ip_ranges_on existing new w
  = (match (compare_ip_ranges_dyn existing new).2 with
     | Ok needs_update => Returned needs_update
     | Raise e => Raised e
     end, w, Stdout <$> (compare_ip_ranges_dyn existing new).1).
Proof.
  unfold compare_ip_ranges_on.
  destruct (compare_ip_ranges_dyn existing new) as [lines result].
  unfold bind. rewrite (prints_for_each lines (fun line => line)).
  rewrite list_fmap_id.
  destruct result; cbn; by rewrite app_nil_r.
Qed.

Lemma compare_ip_ranges_on_never (P : Event -> bool)
    (existing : list IPRange) (new : PyVal) :
  (forall text, P (Stdout text) = false) ->
  never P (compare_ip_ranges_on existing new).
Proof.
  intros HP w. rewrite compare_ip_ranges_on_run. unfold trace. cbn [snd].
  by apply filter_printed.
Qed.

Lemma reconcile_dyn_never_provisions (iplist_name : string)
    (ip_ranges : PyVal) :
  never is_provision (create_or_update_iplist_dyn iplist_name ip_ranges).
Proof.
  unfold create_or_update_iplist_dyn.
  apply never_try_except.
  - repeat never_step. by apply compare_ip_ranges_on_never.
  - intros e h [= <-]. repeat never_step.
Qed.

Lemma reconcile_step_never_provisions (iplist_name : string)
    (ip_ranges : PyVal) :
  never is_provision (reconcile_step iplist_name ip_ranges).
Proof.
  unfold reconcile_step. destruct (as_strings ip_ranges).
  - apply reconcile_never_provisions.
  - apply reconcile_dyn_never_provisions.
Qed.

End ReconcileWrites.

(** ** The comparison *)

Section Comparison.
Context {W : Type} `{Platform W}.

Lemma from_ip_values_filter (existing : list IPRange) :
  from_ip_values (List.filter has_from_ip existing) = from_ip_values existing.
Proof.
  induction existing as [|r existing IH]; [done|].
  cbn [List.filter]. unfold has_from_ip at 1.
  destruct (truthy (from_ip r)) eqn:Hr.
  - unfold from_ip_values in *. cbn [omap list_omap]. by rewrite Hr, IH.
  - rewrite IH. unfold from_ip_values. cbn [omap list_omap]. by rewrite Hr.
Qed.

Lemma from_ip_values_blank (existing : list IPRange) :
  forallb (fun r => negb (has_from_ip r)) existing = true ->
  from_ip_values existing = [].
Proof.
  unfold from_ip_values, has_from_ip.
  induction existing as [|r existing IH]; simpl; [done|].
  intros [Hr Hrest]%andb_true_iff.
  apply negb_true_iff in Hr. rewrite Hr. simpl. by apply IH.
Qed.

Lemma truthy_Some (x : string) : truthy (Some x) = true <-> x <> "".
Proof.
  unfold truthy. rewrite negb_true_iff. apply String.eqb_neq.
Qed.

Lemma elem_of_from_ip_values (existing : list IPRange) (x : string) :
  x ∈ from_ip_values existing
  <-> x <> "" /\ {| from_ip := Some x |} ∈ existing.
Proof.
  unfold from_ip_values. rewrite list_elem_of_omap. split.
  - intros [[[y|]] [Hin Hr]]; cbn [from_ip] in Hr; [|done].
    destruct (truthy (Some y)) eqn:Hy; [|done].
    injection Hr as ->. split; [by apply truthy_Some | done].
  - intros [Hx Hin]. exists {| from_ip := Some x |}. split; [done|].
    cbn [from_ip]. apply truthy_Some in Hx. by rewrite Hx.
Qed.

Lemma compare_ip_ranges_run (existing : list IPRange) (B : list string) w :
  compare_ip_ranges existing B w
  = (Returned (changed existing B), w,
     Stdout <$> compare_lines (from_ip_values existing) B).
Proof. apply compare_ip_ranges_prints. Qed.

Lemma changed_Permutation (existing : list IPRange) (B B' : list string) :
  B ≡ₚ B' -> changed existing B = changed existing B'.
Proof.
  intros HB. unfold changed. apply sorted_eq_iff in HB. by rewrite HB.
Qed.

Lemma compare_lines_Permutation (A B B' : list string) :
  B ≡ₚ B' -> compare_lines A B = compare_lines A B'.
Proof.
  intros HB. unfold compare_lines.
  rewrite (list_to_set_perm_L (C:=gset string) B B' HB).
  apply sorted_eq_iff in HB. by rewrite HB.
Qed.

Lemma iplist_data_Permutation (iplist_name : string) (B B' : list string) :
  B ≡ₚ B' ->
  same_content (iplist_data iplist_name B) (iplist_data iplist_name B').
Proof.
  intros HB. unfold same_content, iplist_data. simpl.
  repeat split. by apply fmap_Permutation.
Qed.

Lemma from_ip_values_nonempty (existing : list IPRange) :
  from_ip_values existing
  = List.filter (fun x => negb (String.eqb x "")) (omap from_ip existing).
Proof.
  unfold from_ip_values.
  induction existing as [|[[x|]] existing IH]; [done| |exact IH].
  cbn [omap list_omap from_ip truthy List.filter].
  destruct (negb (x =? "")%string); cbn; by rewrite IH.
Qed.

(** C1 (diff symmetry), as amended. For every list of stored range objects,
    with [A] the [from_ip] values of these objects that are present and not
    empty, in the order of the objects, and every list [B] of new range
    strings: [compare_ip_ranges] returns [sorted(A) != sorted(B)], changes
    nothing, and prints the report built from the two differences; the sets
    it computes (from the sorted lists) are [added = set(B) - set(A)] and
    [removed = set(A) - set(B)], that is, [added] holds the strings of [B]
    not in [A] and [removed] those of [A] not in [B]. *)
Theorem compare_ip_ranges_diff_symmetry (existing : list IPRange)
    (B : list string) (w : W) :
  let A := List.filter (fun x => negb (String.eqb x ""))
                       (omap from_ip existing) in
  compare_ip_ranges existing B w
  = (Returned (bool_decide (sorted A ≠ sorted B)), w,
     Stdout <$> compare_lines A B)
  /\ added (sorted A) (sorted B) = list_to_set B ∖ list_to_set A
  /\ removed (sorted A) (sorted B) = list_to_set A ∖ list_to_set B
  /\ (forall x, x ∈ added (sorted A) (sorted B) <-> x ∈ B /\ x ∉ A)
  /\ (forall x, x ∈ removed (sorted A) (sorted B) <-> x ∈ A /\ x ∉ B).
Proof.
  intros A. split.
  - rewrite compare_ip_ranges_run. unfold changed.
    by rewrite from_ip_values_nonempty.
  - rewrite added_sorted, removed_sorted.
    do 2 (split; [reflexivity|]).
    split; intros x; by rewrite elem_of_difference, !elem_of_list_to_set.
Qed.

(** C8 (order-insensitivity). For every list of stored range objects, every
    list [B] of new ranges and every permutation [B'] of [B], the
    comparison does the same on [B] and on [B'] (same result, same report),
    and a reconcile run issues the same write calls for both: none, one
    create, or one update of the same reference, the submitted objects
    having the same name and description and the same ranges up to order. *)
Theorem compare_ip_ranges_order_insensitive (existing : list IPRange)
    (B B' : list string) (w : W) :
  B ≡ₚ B' ->
  compare_ip_ranges existing B w = compare_ip_ranges existing B' w
  /\ forall iplist_name,
       Forall2 same_write
         (writes (trace (create_or_update_iplist iplist_name B w)))
         (writes (trace (create_or_update_iplist iplist_name B' w))).
Proof.
  intros HB. split.
  - rewrite !compare_ip_ranges_run.
    by rewrite (changed_Permutation _ B B'), (compare_lines_Permutation _ B B').
  - intros iplist_name. rewrite !reconcile_writes.
    pose proof (refusal_Permutation B B' HB) as [Haccepted Haccepted'].
    destruct (ip_lists_get iplist_name w) as [[[|found_iplist rest]|e] w1];
      [| |constructor];
      destruct (refusal B) as [e|], (refusal B') as [e'|];
      try discriminate (Haccepted eq_refl);
      try discriminate (Haccepted' eq_refl);
      try (by constructor).
    + repeat constructor. by apply iplist_data_Permutation.
    + rewrite (changed_Permutation _ B B' HB).
      destruct (changed _ B'); repeat constructor.
      by apply iplist_data_Permutation.
Qed.

(** C9 (blank ranges). Range objects whose [from_ip] is absent or empty are
    excluded from the comparison: dropping them from the stored list changes
    nothing in what [compare_ip_ranges] does, the compared values are exactly
    the non-empty [from_ip] values, and a stored list in which every
    [from_ip] is absent or empty compares as unchanged against an empty new
    list. *)
Theorem compare_ip_ranges_skips_blank (existing : list IPRange)
    (new : list string) (w : W) :
  compare_ip_ranges existing new w
  = compare_ip_ranges (List.filter has_from_ip existing) new w
  /\ (forall x, x ∈ from_ip_values existing
                <-> x <> "" /\ {| from_ip := Some x |} ∈ existing)
  /\ (forallb (fun r => negb (has_from_ip r)) existing = true ->
      outcome (compare_ip_ranges existing [] w) = Returned false).
Proof.
  split; [|split].
  - rewrite !compare_ip_ranges_run. unfold changed.
    by rewrite from_ip_values_filter.
  - apply elem_of_from_ip_values.
  - intros Hblank. rewrite compare_ip_ranges_run. unfold changed.
    by rewrite (from_ip_values_blank _ Hblank).
Qed.

End Comparison.

(** ** The reconcile step *)

Section ReconcileClaims.
Context {W : Type} `{Platform W}.

Ltac select_events :=
  unfold trace, creates, updates, writes, calls, diagnostics, found, searching,
    reconcile_error;
  simpl; rewrite ?List.filter_app, ?filter_printed by done; simpl.

Lemma changed_false_iff (existing : list IPRange) (new : list string) :
  changed existing new = false
  <-> sorted (from_ip_values existing) = sorted new.
Proof.
  unfold changed. rewrite bool_decide_eq_false. split.
  - apply dec_stable.
  - intros Heq Hne. by apply Hne.
Qed.

Lemma changed_no_ranges (new : list string) :
  changed [] new = bool_decide (new ≠ []).
Proof.
  unfold changed. apply bool_decide_ext.
  change (sorted (from_ip_values [])) with (sorted []).
  rewrite sorted_eq_iff. split; intros Hne Heq; apply Hne.
  - by rewrite Heq.
  - symmetry. by apply Permutation_nil_l.
Qed.

(** C3 (no-op and idempotence), as amended. When the lookup finds a
    resource whose sorted range values equal the sorted new list, the
    reconcile run issues no create and no update call: its only call to the
    policy engine is the lookup, and it leaves the world as the lookup left
    it.  If the constructor of [IPRange] accepts every new entry, the run
    returns that very resource with [wasChanged = false]; if it refuses one
    (line 130, before the comparison), the run writes a diagnostic and ends
    the process with status 1.  The world [w] is arbitrary, so this covers
    the second of two runs: whenever the state the first run left matches
    the unchanged source, the second run writes nothing. *)
Theorem reconcile_unchanged_is_noop (iplist_name : string)
    (new : list string) (w : W) (existing : IPList) (rest : list IPList)
    (w1 : W) :
  ip_lists_get iplist_name w = (Ok (existing :: rest), w1) ->
  sorted (from_ip_values (default [] (Illumio.ip_ranges existing)))
  = sorted new ->
  let r := create_or_update_iplist iplist_name new w in
  world r = w1
  /\ creates (trace r) = []
  /\ updates (trace r) = []
  /\ writes (trace r) = []
  /\ calls (trace r) = [IpListsGet iplist_name]
  /\ match refusal new with
     | None =>
         outcome r = Returned (existing, false) /\ diagnostics (trace r) = []
     | Some e =>
         outcome r = Exited 1 /\ diagnostics (trace r) = [reconcile_error e]
     end.
Proof.
  intros Hget Hsame r. subst r.
  apply changed_false_iff in Hsame.
  destruct (refusal new) as [e|] eqn:Haccepted.
  - rewrite (reconcile_refused _ _ _ _ _ _ Hget Haccepted).
    repeat split; by select_events.
  - rewrite (reconcile_unchanged _ _ _ _ _ _ Hget Haccepted Hsame).
    repeat split; by select_events.
Qed.

(** C5 (create or update), as amended. If the constructor of [IPRange]
    refuses a new entry, neither create nor update is called and the process
    ends with status 1, whatever the lookup returned.  Otherwise: if the
    lookup returns no resource, create is called exactly once, with the new
    object, update is never called, and a run whose create call succeeds
    returns the created resource with [wasChanged = true] (a failing create
    call ends the process with status 1); if the lookup returns one or more
    resources, create is never called and the first one is used: the
    comparison with its ranges, an absent collection counting as empty,
    decides between no write and one update of its reference.  With an
    absent or empty collection the comparison says changed exactly when the
    new list is not empty. *)
Theorem reconcile_create_or_update (iplist_name : string)
    (new : list string) (w : W) :
  let r := create_or_update_iplist iplist_name new w in
  match ip_lists_get iplist_name w with
  | (Ok [], w1) =>
      updates (trace r) = []
      /\ match refusal new with
         | Some _ => creates (trace r) = [] /\ outcome r = Exited 1
         | None =>
             creates (trace r) = [IpListsCreate (iplist_data iplist_name new)]
             /\ match ip_lists_create (iplist_data iplist_name new) w1 with
                | (Ok created, _) => outcome r = Returned (created, true)
                | (Raise _, _) => outcome r = Exited 1
                end
         end
  | (Ok (existing :: _), _) =>
      let existing_ip_ranges := default [] (Illumio.ip_ranges existing) in
      creates (trace r) = []
      /\ match refusal new with
         | Some _ => updates (trace r) = [] /\ outcome r = Exited 1
         | None =>
             if changed existing_ip_ranges new
             then updates (trace r)
                  = [IpListsUpdate (href existing)
                       (iplist_data iplist_name new)]
             else updates (trace r) = []
                  /\ outcome r = Returned (existing, false)
         end
      /\ (Illumio.ip_ranges existing = None
          \/ Illumio.ip_ranges existing = Some [] ->
          changed existing_ip_ranges new = bool_decide (new ≠ []))
  | (Raise _, _) => creates (trace r) = [] /\ updates (trace r) = []
  end.
Proof.
  intros r. subst r.
  destruct (ip_lists_get iplist_name w) as [[[|existing rest]|e] w1] eqn:Hget.
  - destruct (refusal new) as [e|] eqn:Haccepted.
    { erewrite reconcile_refused by eassumption. by select_events. }
    destruct (ip_lists_create (iplist_data iplist_name new) w1)
      as [[created|e] w2] eqn:Hcreate.
    + erewrite reconcile_create by eassumption. by select_events.
    + erewrite reconcile_create_fails by eassumption. by select_events.
  - cbn zeta. destruct (refusal new) as [e|] eqn:Haccepted.
    { erewrite reconcile_refused by eassumption.
      split; [by select_events|]. split; [by select_events|].
      intros [-> | ->]; apply changed_no_ranges. }
    split; [|split].
    + destruct (changed (default [] (Illumio.ip_ranges existing)) new)
        eqn:Hdiff.
      * destruct (ip_lists_update (href existing)
                    (iplist_data iplist_name new) w1)
          as [[answer|e] w2] eqn:Hupdate;
          [destruct (ip_lists_get_by_reference (href existing) w2)
             as [[updated|e] w3] eqn:Hrefetch|].
        -- erewrite reconcile_update by eassumption. by select_events.
        -- erewrite reconcile_refetch_fails by eassumption. by select_events.
        -- erewrite reconcile_update_fails by eassumption. by select_events.
      * erewrite reconcile_unchanged by eassumption. by select_events.
    + destruct (changed (default [] (Illumio.ip_ranges existing)) new)
        eqn:Hdiff.
      * destruct (ip_lists_update (href existing)
                    (iplist_data iplist_name new) w1)
          as [[answer|e] w2] eqn:Hupdate;
          [destruct (ip_lists_get_by_reference (href existing) w2)
             as [[updated|e] w3] eqn:Hrefetch|].
        -- erewrite reconcile_update by eassumption. by select_events.
        -- erewrite reconcile_refetch_fails by eassumption. by select_events.
        -- erewrite reconcile_update_fails by eassumption. by select_events.
      * erewrite reconcile_unchanged by eassumption. by select_events.
    + intros [-> | ->]; apply changed_no_ranges.
  - erewrite reconcile_search_fails by eassumption. by select_events.
Qed.

(** C6 (update and re-fetch), as amended. On the update path (a resource is
    found and the comparison says changed): if the constructor of [IPRange]
    refuses a new entry, the run writes a diagnostic and exits with status 1
    right after the lookup, with no update and no re-fetch.  Otherwise it
    submits one update against the found resource's reference, carrying the
    same name, the fixed description and all new ranges.  If the update
    call raises, the run writes a diagnostic and exits with status 1
    without re-fetching.  Otherwise it re-fetches the resource by the same
    reference: the re-fetched resource, not what the update call returned,
    is the result, with [wasChanged = true]; if the re-fetch raises, the run
    writes a diagnostic and exits with status 1. *)
Theorem reconcile_update_refetches (iplist_name : string)
    (new : list string) (w : W) (existing : IPList) (rest : list IPList)
    (w1 : W) :
  ip_lists_get iplist_name w = (Ok (existing :: rest), w1) ->
  changed (default [] (Illumio.ip_ranges existing)) new = true ->
  let r := create_or_update_iplist iplist_name new w in
  let data :=
    {| href := None;
       name := Some iplist_name;
       description := Some "Zscaler IP ranges - Auto-updated";
       ip_ranges := Some ((fun x => {| from_ip := Some x |}) <$> new) |} in
  match refusal new with
  | Some e =>
      outcome r = Exited 1 /\ world r = w1 /\ fatal r
      /\ diagnostics (trace r) = [reconcile_error e]
      /\ calls (trace r) = [IpListsGet iplist_name]
  | None =>
      match ip_lists_update (href existing) data w1 with
      | (Raise e, w2) =>
          outcome r = Exited 1 /\ world r = w2 /\ fatal r
          /\ diagnostics (trace r) = [reconcile_error e]
          /\ calls (trace r)
             = [IpListsGet iplist_name; IpListsUpdate (href existing) data]
      | (Ok answer, w2) =>
          calls (trace r)
          = [IpListsGet iplist_name; IpListsUpdate (href existing) data;
             IpListsGetByReference (href existing)]
          /\ match ip_lists_get_by_reference (href existing) w2 with
             | (Ok updated, w3) =>
                 outcome r = Returned (updated, true) /\ world r = w3
                 /\ diagnostics (trace r) = []
             | (Raise e, w3) =>
                 outcome r = Exited 1 /\ world r = w3 /\ fatal r
                 /\ diagnostics (trace r) = [reconcile_error e]
             end
      end
  end.
Proof.
  intros Hget Hdiff r data. subst r.
  change data with (iplist_data iplist_name new). clear data.
  destruct (refusal new) as [e|] eqn:Haccepted.
  { erewrite reconcile_refused by eassumption.
    unfold fatal. select_events. repeat split; eauto; done. }
  destruct (ip_lists_update (href existing) (iplist_data iplist_name new) w1)
    as [[answer|e] w2] eqn:Hupdate;
    [destruct (ip_lists_get_by_reference (href existing) w2)
       as [[updated|e] w3] eqn:Hrefetch|].
  - erewrite reconcile_update by eassumption. by select_events.
  - erewrite reconcile_refetch_fails by eassumption.
    unfold fatal. select_events. repeat split; eauto; done.
  - erewrite reconcile_update_fails by eassumption.
    unfold fatal. select_events. repeat split; eauto; done.
Qed.

End ReconcileClaims.

(** ** The fetch step *)

Section Fetch.
Context {W : Type} `{Platform W}.

Lemma fetch_zscaler_ips_run (w : W) (answer : Raises Response) (w1 : W) :
  requests_get ZSCALER_API_URL 30 w = (answer, w1) ->
  fetch_zscaler_ips w = fetch_result answer w1.
Proof.
  intros Hget.
  unfold fetch_zscaler_ips, try_except, bind, call, print, print_err, emit,
    sys_exit, lift, raise, ret, fetch_result, fetch_raised, fetch_diagnostic,
    fetching.
  rewrite Hget. clear Hget.
  destruct answer as [response|e]; [|destruct (exn_kind e); reflexivity].
  destruct (raise_for_status response) as [e|];
    [destruct (exn_kind e); reflexivity|].
  cbn. destruct (json response) as [data|e];
    [|destruct (exn_kind e); reflexivity].
  cbn. destruct (Py.get data "prefixes" (PyList [])) as [prefixes|e];
    [|destruct (exn_kind e); reflexivity].
  cbn. destruct (len prefixes) as [n|e];
    [reflexivity | destruct (exn_kind e); reflexivity].
Qed.

Lemma fetch_failure_diagnostic (answer : Raises Response) (e : Exn) :
  fetch_failure answer e -> exists text, fetch_diagnostic e = Some text.
Proof.
  unfold fetch_diagnostic.
  intros [e' He|response e' _ He|response e' _ _ [He|He]]; rewrite He; eauto.
Qed.

Lemma fetch_result_failure (answer : Raises Response) (e : Exn) (w1 : W) :
  fetch_failure answer e -> fetch_result answer w1 = fetch_raised e w1.
Proof.
  intros [e' He|response e' Hstatus He|response e' Hstatus Hjson He];
    unfold fetch_result;
    [done | by rewrite Hstatus | by rewrite Hstatus, Hjson].
Qed.

(** A body that is not a JSON object is not handled by the [except]
    clauses: the [AttributeError] of [data.get] propagates out of the
    function, and the script itself writes no diagnostic. *)
Lemma fetch_body_not_object (w : W) (response : Response) (w1 : W)
    (body : PyVal) :
  requests_get ZSCALER_API_URL 30 w = (Ok response, w1) ->
  raise_for_status response = None ->
  json response = Ok body ->
  (forall kvs, body <> PyDict kvs) ->
  exists e, exn_kind e = AttributeError
            /\ fetch_zscaler_ips w = (Raised e, w1, fetching).
Proof.
  intros Hget Hstatus Hjson Hbody.
  rewrite (fetch_zscaler_ips_run _ _ _ Hget). unfold fetch_result.
  rewrite Hstatus, Hjson.
  destruct body; try (eexists; split; [|reflexivity]; reflexivity).
  by destruct (Hbody kvs).
Qed.

(** The failures the [except] clauses cover. A fetch whose transport fails
    (timeout, connection error, non-success status) or whose body cannot be
    decoded writes one diagnostic to the error stream, after the request and
    nothing else, and ends the process with status 1, returning nothing. *)
Theorem fetch_failure_is_fatal (w : W) (answer : Raises Response) (w1 : W)
    (e : Exn) :
  requests_get ZSCALER_API_URL 30 w = (answer, w1) ->
  fetch_failure answer e ->
  let r := fetch_zscaler_ips w in
  outcome r = Exited 1 /\ world r = w1 /\ fatal r
  /\ exists text, fetch_diagnostic e = Some text
                  /\ trace r = fetching ++ [Stderr text]
                  /\ diagnostics (trace r) = [Stderr text].
Proof.
  intros Hget Hfail r. subst r. rewrite (fetch_zscaler_ips_run _ _ _ Hget).
  destruct (fetch_failure_diagnostic _ _ Hfail) as [text Htext].
  rewrite (fetch_result_failure _ _ _ Hfail). unfold fetch_raised.
  rewrite Htext.
  unfold fatal, outcome, world, trace, diagnostics, fetching. simpl.
  repeat split; eauto; done.
Qed.

End Fetch.

(** ** Provisioning and the whole run *)

Section Main.
Context {W : Type} `{Platform W}.

Lemma provision_policy_changes_run (iplist_href : option string) (w : W)
    (answer : Raises PolicyChangeset) (w1 : W) :
  pce_provision_policy_changes (provision_description iplist_href)
    [iplist_href] w = (answer, w1) ->
  provision_policy_changes iplist_href w
  = (Returned tt, w1, provision_trace iplist_href answer).
Proof.
  intros Hcall.
  unfold provision_policy_changes, try_except, bind, call, print, print_err,
    emit, provision_trace, provision_call, provision_error.
  fold (provision_description iplist_href). rewrite Hcall.
  by destruct answer.
Qed.

Lemma fetch_never_provisions : never is_provision (@fetch_zscaler_ips W _).
Proof.
  unfold fetch_zscaler_ips. apply never_try_except.
  - repeat never_step.
  - intros e h Hh. destruct (exn_kind e); inversion Hh; repeat never_step.
Qed.

Lemma main_prepare_never_provisions (args : Args) :
  never is_provision (main_prepare args).
Proof.
  unfold main_prepare. repeat never_step.
  - apply fetch_never_provisions.
  - intros w. reflexivity.
  - apply never_try_except; [repeat never_step|].
    intros e h [= <-]. repeat never_step.
Qed.

Lemma as_str_list_as_strings (v : PyVal) (l : list string) :
  as_str_list v = Some l -> as_strings v = Some l.
Proof. by destruct v. Qed.

Lemma reconcile_returns_step (args : Args) (w : W) result w2 t :
  reconcile_returns args w result w2 t ->
  reconcile_step_returns args w result w2 t.
Proof.
  intros (fetched & w1 & t1 & ip_ranges & t2 & Hprep & Htyped & Hrec & ->).
  exists fetched, w1, t1, t2. split; [done|]. split; [|done].
  unfold reconcile_step. by rewrite (as_str_list_as_strings _ _ Htyped).
Qed.

Lemma main_run_changed (args : Args) (w : W) iplist w2 t answer w3 :
  reconcile_step_returns args w (iplist, true) w2 t ->
  pce_provision_policy_changes (provision_description (href iplist))
    [href iplist] w2 = (answer, w3) ->
  main args w
  = (Returned tt, w3,
     t ++ [Stdout ("IPList href: " +:+ str_of_opt (href iplist));
           Stdout (nl +:+ "Provisioning policy changes...")]
       ++ provision_trace (href iplist) answer ++ [completed]).
Proof.
  intros (fetched & w1 & t1 & t2 & Hprep & Hrec & ->) Hcall.
  unfold main, bind. rewrite Hprep.
  unfold main_reconcile, bind. rewrite Hrec.
  unfold print, emit, completed.
  cbn -[provision_policy_changes String.append].
  rewrite (provision_policy_changes_run _ _ _ _ Hcall).
  by rewrite <- !app_assoc.
Qed.

Lemma main_run_unchanged (args : Args) (w : W) iplist w2 t :
  reconcile_step_returns args w (iplist, false) w2 t ->
  main args w
  = (Returned tt, w2,
     t ++ [Stdout ("IPList href: " +:+ str_of_opt (href iplist));
           completed_unchanged]).
Proof.
  intros (fetched & w1 & t1 & t2 & Hprep & Hrec & ->).
  unfold main, bind. rewrite Hprep.
  unfold main_reconcile, bind. rewrite Hrec.
  unfold print, emit, completed_unchanged.
  cbn -[String.append].
  by rewrite <- !app_assoc.
Qed.

End Main.

Section MainClaims.
Context {W : Type} `{Platform W}.

Lemma reconcile_step_returns_never_provisions (args : Args) (w : W) result
    w2 t :
  reconcile_step_returns args w result w2 t -> provisions t = [].
Proof.
  intros (fetched & w1 & t1 & t2 & Hprep & Hrec & ->).
  pose proof (main_prepare_never_provisions args w) as H1.
  pose proof (reconcile_step_never_provisions (iplist_name args) fetched w1)
    as H2.
  rewrite Hprep in H1. rewrite Hrec in H2. unfold trace in *. simpl in *.
  unfold provisions. by rewrite List.filter_app, H1, H2.
Qed.

Lemma provisions_provision_trace (iplist_href : option string) answer :
  provisions (provision_trace iplist_href answer)
  = [provision_call iplist_href].
Proof. by destruct answer. Qed.

(** Either the reconcile step returned [wasChanged = true], or the run does
    not provision. *)
Lemma main_provisions_cases (args : Args) (w : W) :
  (exists iplist w2 t, reconcile_step_returns args w (iplist, true) w2 t)
  \/ provisions (trace (main args w)) = [].
Proof.
  pose proof (main_prepare_never_provisions args w) as H1.
  unfold main, bind, provisions, trace in *.
  destruct (main_prepare args w) as [[o w1] t1] eqn:Hprep. simpl in H1.
  destruct o as [fetched|status|e]; try (by right).
  pose proof (reconcile_step_never_provisions (iplist_name args) fetched w1)
    as H2.
  unfold main_reconcile, bind, trace in *.
  destruct (reconcile_step (iplist_name args) fetched w1)
    as [[o w2] t2] eqn:Hrec. simpl in H2.
  destruct o as [[iplist [|]]|status|e];
    try (right; simpl; by rewrite List.filter_app, H1, H2).
  - left. exists iplist, w2, (t1 ++ t2).
    by exists fetched, w1, t1, t2.
  - right. unfold print, emit. cbn -[String.append].
    by rewrite !List.filter_app, H1, H2.
Qed.

(** C4 (provisioning gating). In every run (that is, for all arguments and
    every world, whatever the feed and the policy engine answer) the
    provision operation is invoked if and only if the reconcile step
    returned [wasChanged = true], and then exactly once, for the reference
    of the returned resource; when the reconcile step returned
    [wasChanged = false] it is not invoked; in particular, when the lookup
    finds a resource whose ranges match the fetched ones, no provisioning
    call occurs. *)
Theorem provisioning_gating (args : Args) (w : W) :
  let r := main args w in
  (provisions (trace r) <> []
   <-> exists iplist w2 t, reconcile_step_returns args w (iplist, true) w2 t)
  /\ (forall iplist w2 t,
        reconcile_step_returns args w (iplist, true) w2 t ->
        provisions (trace r) = [provision_call (href iplist)])
  /\ (forall iplist w2 t,
        reconcile_step_returns args w (iplist, false) w2 t ->
        provisions (trace r) = [])
  /\ (forall fetched w1 t1 ip_ranges existing rest w2,
        main_prepare args w = (Returned fetched, w1, t1) ->
        as_strings fetched = Some ip_ranges ->
        ip_lists_get (iplist_name args) w1 = (Ok (existing :: rest), w2) ->
        sorted (from_ip_values (default [] (Illumio.ip_ranges existing)))
        = sorted ip_ranges ->
        provisions (trace r) = []).
Proof.
  intros r. subst r.
  assert (forall iplist w2 t,
            reconcile_step_returns args w (iplist, true) w2 t ->
            provisions (trace (main args w)) = [provision_call (href iplist)])
    as Hchanged.
  { intros iplist w2 t Hrec.
    destruct (pce_provision_policy_changes
                (provision_description (href iplist)) [href iplist] w2)
      as [answer w3] eqn:Hcall.
    rewrite (main_run_changed _ _ _ _ _ _ _ Hrec Hcall).
    unfold provisions, trace. cbn [snd].
    rewrite !List.filter_app.
    fold (provisions t). fold (provisions (provision_trace (href iplist) answer)).
    rewrite (reconcile_step_returns_never_provisions _ _ _ _ _ Hrec).
    by rewrite provisions_provision_trace. }
  assert (forall iplist w2 t,
            reconcile_step_returns args w (iplist, false) w2 t ->
            provisions (trace (main args w)) = []) as Hunchanged.
  { intros iplist w2 t Hrec.
    rewrite (main_run_unchanged _ _ _ _ _ Hrec).
    unfold provisions, trace. cbn [snd]. rewrite List.filter_app.
    fold (provisions t).
    by rewrite (reconcile_step_returns_never_provisions _ _ _ _ _ Hrec). }
  split; [|split; [exact Hchanged|split; [exact Hunchanged|]]].
  - split.
    + intros Hsome. by destruct (main_provisions_cases args w).
    + intros (iplist & w2 & t & Hrec). by rewrite (Hchanged _ _ _ Hrec).
  - intros fetched w1 t1 ip_ranges existing rest w2 Hprep Htyped Hget Hsame.
    apply changed_false_iff in Hsame.
    destruct (main_provisions_cases args w)
      as [(iplist & w3 & t & fetched' & w1' & t1' & t2 & Hprep' & Hrec & _)|];
      [|done].
    rewrite Hprep in Hprep'. injection Hprep' as <- <- <-.
    unfold reconcile_step in Hrec. rewrite Htyped in Hrec.
    destruct (refusal ip_ranges) as [e|] eqn:Haccepted.
    + by rewrite (reconcile_refused _ _ _ _ _ _ Hget Haccepted) in Hrec.
    + by rewrite (reconcile_unchanged _ _ _ _ _ _ Hget Haccepted Hsame)
        in Hrec.
Qed.

(** C7 (best-effort provisioning). When the reconcile step has returned
    [wasChanged = true] (the create or update succeeded) and the
    provisioning call then raises, [provision_policy_changes] reports the
    error on the error stream, nothing propagates, and [main] returns
    normally after printing its success line: the exit status is 0. *)
Theorem provisioning_failure_is_not_fatal (args : Args) (w : W)
    (iplist : IPList) (w2 : W) (t : list Event) (e : Exn) (w3 : W) :
  reconcile_returns args w (iplist, true) w2 t ->
  pce_provision_policy_changes (provision_description (href iplist))
    [href iplist] w2 = (Raise e, w3) ->
  let r := main args w in
  outcome r = Returned tt
  /\ exit_status (outcome r) = Some 0%Z
  /\ world r = w3
  /\ trace r
     = t ++ [Stdout ("IPList href: " +:+ str_of_opt (href iplist));
             Stdout (nl +:+ "Provisioning policy changes...");
             Stdout ("Provisioning policy changes for IPList: "
                     +:+ str_of_opt (href iplist) +:+ "...");
             provision_call (href iplist);
             Stderr ("Error provisioning policy changes: " +:+ exn_msg e);
             Stdout (nl +:+ "✓ Script completed successfully!")]
  /\ provision_policy_changes (href iplist) w2
     = (Returned tt, w3,
        [Stdout ("Provisioning policy changes for IPList: "
                 +:+ str_of_opt (href iplist) +:+ "...");
         provision_call (href iplist);
         Stderr ("Error provisioning policy changes: " +:+ exn_msg e)]).
Proof.
  intros Hrec%reconcile_returns_step Hcall r. subst r.
  rewrite (main_run_changed _ _ _ _ _ _ _ Hrec Hcall).
  rewrite (provision_policy_changes_run _ _ _ _ Hcall).
  repeat split.
Qed.

End MainClaims.

(** ** Duplicates *)

(** C10. There are a stored list [A] and a new list [B] with the same set of
    values that differ only in how often a value occurs: their sorted lists
    differ, so the comparison returns [changed = true] although both
    [added] and [removed] are empty; the report has no added or removed
    entry, and a reconcile run that finds a resource with these ranges
    issues an update, unless the constructor of [IPRange] refuses the value
    (line 130), in which case it writes nothing. *)
Theorem duplicates_change_without_diff :
  exists (existing : list IPRange) (B : list string),
    let A := from_ip_values existing in
    list_to_set A =@{gset string} list_to_set B
    /\ sorted A <> sorted B
    /\ changed existing B = true
    /\ added (sorted A) (sorted B) = ∅
    /\ removed (sorted A) (sorted B) = ∅
    /\ forall (W : Type) (P : Platform W) (w : W),
         compare_ip_ranges existing B w
         = (Returned true, w,
            [Stdout "IP ranges have changed:";
             Stdout "  Existing: 1 IP ranges";
             Stdout "  New: 2 IP ranges"])
         /\ forall iplist_name found_iplist rest w1,
              ip_lists_get iplist_name w = (Ok (found_iplist :: rest), w1) ->
              Illumio.ip_ranges found_iplist = Some existing ->
              writes (trace (create_or_update_iplist iplist_name B w))
              = match IPRange_raises (PyStr "10.0.0.0/8") with
                | None => [IpListsUpdate (href found_iplist)
                             (iplist_data iplist_name B)]
                | Some _ => []
                end.
Proof.
  exists [{| from_ip := Some "10.0.0.0/8" |}], ["10.0.0.0/8"; "10.0.0.0/8"].
  cbn zeta.
  split; [by vm_compute|]. split; [by vm_compute|]. split; [by vm_compute|].
  split; [by vm_compute|]. split; [by vm_compute|].
  intros W P w. split.
  - rewrite compare_ip_ranges_run. reflexivity.
  - intros iplist_name found_iplist rest w1 Hget Hranges.
    rewrite reconcile_writes, Hget, Hranges.
    cbn [refusal]. by destruct (IPRange_raises (PyStr "10.0.0.0/8")).
Qed.

(** ** Runs on the reference world *)

Module Runs.
Import Sim Scenario.

(** C2 (fetch failures are fatal): the code at the inputs where it departs
    from the claim.  A body without [prefixes], and a body whose [prefixes]
    is a string instead of a list, are both fetched "successfully": the
    fetch returns the empty list, respectively the string, nothing is
    written to the error stream and the process goes on.  The handler for
    parse errors on lines 48-50 is never reached for them, since [data.get]
    with a default does not raise. *)
Lemma fetch_missing_prefixes_is_not_fatal :
  let missing := world_of_body (PyDict [("other", PyInt 1)]) in
  let malformed := world_of_body (PyDict [("prefixes", PyStr "oops")]) in
  fetch_zscaler_ips missing
  = (Returned (PyList []), missing,
     fetching ++ [Stdout "Successfully fetched 0 IP ranges from Zscaler"])
  /\ ~ fatal (fetch_zscaler_ips missing)
  /\ fetch_zscaler_ips malformed
     = (Returned (PyStr "oops"), malformed,
        fetching ++ [Stdout "Successfully fetched 4 IP ranges from Zscaler"])
  /\ ~ fatal (fetch_zscaler_ips malformed).
Proof.
  cbn zeta. split; [reflexivity|]. split.
  - intros [[status [Hexit _]] _]. vm_compute in Hexit. discriminate.
  - split; [reflexivity|].
    intros [[status [Hexit _]] _]. vm_compute in Hexit. discriminate.
Qed.

Lemma fetch_failure_is_fatal_witness :
  requests_get ZSCALER_API_URL 30 world_timeout = (Raise timeout, world_timeout)
  /\ fetch_failure (Raise timeout) timeout
  /\ outcome (fetch_zscaler_ips world_timeout) = Exited 1
  /\ fatal (fetch_zscaler_ips world_timeout)
  /\ diagnostics (trace (fetch_zscaler_ips world_timeout))
     = [Stderr "Error fetching Zscaler IPs: Read timed out."].
Proof.
  assert (fetch_failure (Raise timeout) timeout) as Hfail
    by (constructor; reflexivity).
  assert (requests_get ZSCALER_API_URL 30 world_timeout
          = (Raise timeout, world_timeout)) as Hget by reflexivity.
  destruct (fetch_failure_is_fatal world_timeout (Raise timeout) world_timeout
              timeout Hget Hfail)
    as (Hout & _ & Hf & text & Htext & _ & Hdiag).
  injection Htext as <-.
  split; [exact Hget|]. split; [exact Hfail|]. split; [exact Hout|].
  split; [exact Hf | exact Hdiag].
Defined.

Lemma reconcile_unchanged_is_noop_witness :
  let first := create_or_update_iplist "Zscaler IPs" new_ranges world_changed in
  let w := world first in
  let second := create_or_update_iplist "Zscaler IPs" new_ranges w in
  outcome first = Returned (updated_iplist, true)
  /\ ip_lists_get "Zscaler IPs" w = (Ok [updated_iplist], w)
  /\ sorted (from_ip_values (default [] (Illumio.ip_ranges updated_iplist)))
     = sorted new_ranges
  /\ refusal new_ranges = None
  /\ outcome second = Returned (updated_iplist, false)
  /\ world second = w
  /\ writes (trace second) = []
  /\ calls (trace second) = [IpListsGet "Zscaler IPs"].
Proof.
  cbn zeta.
  set (w := world (create_or_update_iplist "Zscaler IPs" new_ranges
                     world_changed)).
  assert (ip_lists_get "Zscaler IPs" w = (Ok [updated_iplist], w)) as Hget
    by reflexivity.
  assert (sorted (from_ip_values
                    (default [] (Illumio.ip_ranges updated_iplist)))
          = sorted new_ranges) as Hsame by (vm_compute; reflexivity).
  assert (refusal new_ranges = None) as Haccepted by reflexivity.
  destruct (reconcile_unchanged_is_noop "Zscaler IPs" new_ranges
              w updated_iplist [] w Hget Hsame)
    as (Hworld & _ & _ & Hwrites & Hcalls & Hout).
  rewrite Haccepted in Hout. destruct Hout as [Hout _].
  split; [reflexivity|].
  split; [exact Hget|]. split; [exact Hsame|]. split; [exact Haccepted|].
  split; [exact Hout|].
  split; [exact Hworld|]. split; [exact Hwrites | exact Hcalls].
Defined.

(** C3 as stated fails: the stored list holds a value the constructor of
    [IPRange] refuses and the feed has the same value.  The sorted values
    are equal, yet the run does not return the resource with
    [wasChanged = false]: line 130 raises, and the process exits with
    status 1. *)
Lemma reconcile_unchanged_refused_entry :
  let w := world0 host_bits_ranges [stored_host_bits] [] in
  let r := create_or_update_iplist "Zscaler IPs" host_bits_ranges w in
  ip_lists_get "Zscaler IPs" w = (Ok [stored_host_bits], w)
  /\ sorted (from_ip_values (default [] (Illumio.ip_ranges stored_host_bits)))
     = sorted host_bits_ranges
  /\ outcome r = Exited 1
  /\ outcome r <> Returned (stored_host_bits, false)
  /\ diagnostics (trace r)
     = [Stderr "Error creating/updating IPList: Invalid IP range: 10.0.0.1/8"].
Proof. cbn zeta. repeat split; try (vm_compute; reflexivity). discriminate. Qed.

(** C5 as stated fails: the lookup returns no resource, but the feed has an
    entry the constructor of [IPRange] refuses.  Create is not called: the
    process exits with status 1 right after the lookup. *)
Lemma reconcile_create_refused_entry :
  let w := world0 not_ranges [] [] in
  let r := create_or_update_iplist "Zscaler IPs" not_ranges w in
  ip_lists_get "Zscaler IPs" w = (Ok [], w)
  /\ creates (trace r) = []
  /\ calls (trace r) = [IpListsGet "Zscaler IPs"]
  /\ outcome r = Exited 1.
Proof. cbn zeta. repeat split; vm_compute; reflexivity. Qed.

Lemma reconcile_update_refetches_witness :
  let r := create_or_update_iplist "Zscaler IPs" new_ranges world_changed in
  ip_lists_get "Zscaler IPs" world_changed = (Ok [stored_iplist], world_changed)
  /\ changed (default [] (Illumio.ip_ranges stored_iplist)) new_ranges = true
  /\ refusal new_ranges = None
  /\ outcome r = Returned (updated_iplist, true)
  /\ world r = world_updated []
  /\ calls (trace r)
     = [IpListsGet "Zscaler IPs";
        IpListsUpdate (href stored_iplist)
          (iplist_data "Zscaler IPs" new_ranges);
        IpListsGetByReference (href stored_iplist)].
Proof.
  cbn zeta.
  assert (changed (default [] (Illumio.ip_ranges stored_iplist)) new_ranges
          = true) as Hdiff by (vm_compute; reflexivity).
  assert (ip_lists_get "Zscaler IPs" world_changed
          = (Ok [stored_iplist], world_changed)) as Hget by reflexivity.
  assert (refusal new_ranges = None) as Haccepted by reflexivity.
  pose proof (reconcile_update_refetches "Zscaler IPs" new_ranges
                world_changed stored_iplist [] world_changed Hget Hdiff)
    as Hthm.
  cbn zeta in Hthm. rewrite Haccepted in Hthm.
  change (ip_lists_update _ _ world_changed)
    with (@Ok (option IPList) None, world_updated []) in Hthm.
  change (ip_lists_get_by_reference _ (world_updated []))
    with (Ok updated_iplist, world_updated []) in Hthm.
  destruct Hthm as (Hcalls & Hout & Hworld & _).
  split; [exact Hget|]. split; [exact Hdiff|]. split; [exact Haccepted|].
  split; [exact Hout|].
  split; [exact Hworld | exact Hcalls].
Defined.

(** C6 as stated fails: on the update path with an entry the constructor of
    [IPRange] refuses, no update is submitted and nothing is re-fetched; the
    lookup is the only call, and the process exits with status 1. *)
Lemma reconcile_update_refused_entry :
  let w := world0 ranges_with_host_bits [stored_iplist] [] in
  let r := create_or_update_iplist "Zscaler IPs" ranges_with_host_bits w in
  ip_lists_get "Zscaler IPs" w = (Ok [stored_iplist], w)
  /\ changed (default [] (Illumio.ip_ranges stored_iplist))
       ranges_with_host_bits = true
  /\ updates (trace r) = []
  /\ calls (trace r) = [IpListsGet "Zscaler IPs"]
  /\ outcome r = Exited 1.
Proof. cbn zeta. repeat split; vm_compute; reflexivity. Qed.

(** C1 as stated fails: with [A] all the [from_ip] values of the stored
    range objects, a stored range whose [from_ip] is the empty string
    against the new list [[""]] gives [sorted(A) = sorted(B)], yet the
    comparison returns [changed = true]: it skips the empty value. *)
Lemma compare_ip_ranges_skips_empty_from_ip :
  let existing := [{| from_ip := Some "" |}] in
  let A := omap from_ip existing in
  let B := [""] in
  sorted A = sorted B
  /\ compare_ip_ranges existing B world_changed
     = (Returned true, world_changed,
        [Stdout "IP ranges have changed:";
         Stdout "  Existing: 0 IP ranges";
         Stdout "  New: 1 IP ranges";
         Stdout "  Added: 1 IP range(s)";
         Stdout "    + "]).
Proof. cbn zeta. split; vm_compute; reflexivity. Qed.

(** The witness of C10 on the reference world, whose constructor accepts
    the value. *)
Lemma duplicates_change_without_diff_witness :
  exists (existing : list IPRange) (B : list string),
    changed existing B = true
    /\ added (sorted (from_ip_values existing)) (sorted B) = ∅
    /\ removed (sorted (from_ip_values existing)) (sorted B) = ∅
    /\ IPRange_raises (PyStr "10.0.0.0/8") = None
    /\ writes (trace (create_or_update_iplist "Zscaler IPs" B
                        (world0 B [stored_with existing] [])))
       = [IpListsUpdate (href (stored_with existing))
            (iplist_data "Zscaler IPs" B)].
Proof.
  destruct duplicates_change_without_diff
    as (existing & B & _ & _ & Hchanged & Hadded & Hremoved & Hrun).
  exists existing, B.
  assert (IPRange_raises (PyStr "10.0.0.0/8") = None) as Haccepted
    by reflexivity.
  split; [exact Hchanged|]. split; [exact Hadded|]. split; [exact Hremoved|].
  split; [exact Haccepted|].
  destruct (Hrun World platform (world0 B [stored_with existing] []))
    as [_ Hwrites].
  rewrite (Hwrites "Zscaler IPs" (stored_with existing) []
             (world0 B [stored_with existing] []) eq_refl eq_refl).
  by rewrite Haccepted.
Defined.

Lemma provisioning_failure_is_not_fatal_witness :
  let w := world_provision_fails in
  let prepared := main_prepare args0 w in
  let reconciled :=
    create_or_update_iplist "Zscaler IPs" new_ranges (world prepared) in
  let e := failure "API error" in
  reconcile_returns args0 w (updated_iplist, true)
    (world_updated [OpProvision]) (trace prepared ++ trace reconciled)
  /\ pce_provision_policy_changes
       (provision_description (href updated_iplist)) [href updated_iplist]
       (world_updated [OpProvision])
     = (Raise e, world_updated [OpProvision])
  /\ outcome (main args0 w) = Returned tt
  /\ exit_status (outcome (main args0 w)) = Some 0%Z
  /\ diagnostics (trace (main args0 w))
     = [Stderr "Error provisioning policy changes: API error"].
Proof.
  cbn zeta.
  assert (reconcile_returns args0 world_provision_fails (updated_iplist, true)
            (world_updated [OpProvision])
            (trace (main_prepare args0 world_provision_fails)
             ++ trace (create_or_update_iplist "Zscaler IPs" new_ranges
                         (world (main_prepare args0 world_provision_fails)))))
    as Hrec.
  { exists (PyList (PyStr <$> new_ranges)), world_provision_fails,
      (trace (main_prepare args0 world_provision_fails)), new_ranges,
      (trace (create_or_update_iplist "Zscaler IPs" new_ranges
                (world (main_prepare args0 world_provision_fails)))).
    repeat split; vm_compute; reflexivity. }
  assert (pce_provision_policy_changes
            (provision_description (href updated_iplist))
            [href updated_iplist] (world_updated [OpProvision])
          = (Raise (failure "API error"), world_updated [OpProvision]))
    as Hcall by reflexivity.
  destruct (provisioning_failure_is_not_fatal args0 world_provision_fails
              updated_iplist (world_updated [OpProvision]) _
              (failure "API error") (world_updated [OpProvision])
              Hrec Hcall)
    as (Hout & Hexit & _ & Htrace & _).
  split; [exact Hrec|]. split; [exact Hcall|]. split; [exact Hout|].
  split; [exact Hexit|].
  rewrite Htrace. vm_compute. reflexivity.
Defined.

Lemma compare_ip_ranges_order_insensitive_witness :
  new_ranges ≡ₚ new_ranges_reordered
  /\ compare_ip_ranges (default [] (Illumio.ip_ranges stored_iplist))
       new_ranges world_changed
     = compare_ip_ranges (default [] (Illumio.ip_ranges stored_iplist))
         new_ranges_reordered world_changed
  /\ Forall2 same_write
       (writes (trace (create_or_update_iplist "Zscaler IPs" new_ranges
                         world_changed)))
       (writes (trace (create_or_update_iplist "Zscaler IPs"
                         new_ranges_reordered world_changed))).
Proof.
  assert (new_ranges ≡ₚ new_ranges_reordered) as Hperm by apply perm_swap.
  destruct (compare_ip_ranges_order_insensitive
              (default [] (Illumio.ip_ranges stored_iplist))
              new_ranges new_ranges_reordered world_changed Hperm)
    as [Hcompare Hwrites].
  split; [exact Hperm|]. split; [exact Hcompare|]. apply Hwrites.
Defined.

Lemma compare_ip_ranges_skips_blank_witness :
  forallb (fun r => negb (has_from_ip r)) blank_ranges = true
  /\ outcome (compare_ip_ranges blank_ranges [] world_changed)
     = Returned false.
Proof.
  split; [reflexivity|].
  apply (compare_ip_ranges_skips_blank blank_ranges [] world_changed).
  reflexivity.
Defined.

Lemma provisioning_gating_witness :
  provisions (trace (main args0 world_changed))
  = [provision_call (href updated_iplist)]
  /\ provisions (trace (main args0 world_unchanged)) = [].
Proof.
  split.
  - apply (provisioning_gating args0 world_changed)
      with (w2 := world_updated [])
           (t := trace (main_prepare args0 world_changed)
                 ++ trace (create_or_update_iplist "Zscaler IPs" new_ranges
                             (world (main_prepare args0 world_changed)))).
    exists (PyList (PyStr <$> new_ranges)), world_changed,
      (trace (main_prepare args0 world_changed)),
      (trace (create_or_update_iplist "Zscaler IPs" new_ranges
                (world (main_prepare args0 world_changed)))).
    repeat split; vm_compute; reflexivity.
  - apply (provisioning_gating args0 world_unchanged)
      with (fetched := PyList (PyStr <$> same_ranges))
           (w1 := world_unchanged)
           (t1 := trace (main_prepare args0 world_unchanged))
           (ip_ranges := same_ranges) (existing := stored_iplist)
           (rest := []) (w2 := world_unchanged);
      vm_compute; reflexivity.
Defined.

(** The scenarios of the specification. *)

Example scenario_update :
  let r := main args0 world_changed in
  changed (default [] (Illumio.ip_ranges stored_iplist)) new_ranges = true
  /\ elements (added (sorted ["1.1.1.0/24"; "2.2.2.0/24"]) (sorted new_ranges))
     = ["3.3.3.0/24"]
  /\ elements (removed (sorted ["1.1.1.0/24"; "2.2.2.0/24"])
                 (sorted new_ranges))
     = ["1.1.1.0/24"]
  /\ writes (trace r)
     = [IpListsUpdate (href stored_iplist)
          (iplist_data "Zscaler IPs" new_ranges)]
  /\ provisions (trace r) = [provision_call (href stored_iplist)]
  /\ exit_status (outcome r) = Some 0%Z.
Proof. repeat split; vm_compute; reflexivity. Qed.

Example scenario_create :
  let r := main args0 (world0 ["4.4.4.0/24"] [] []) in
  writes (trace r) = [IpListsCreate (iplist_data "Zscaler IPs" ["4.4.4.0/24"])]
  /\ provisions (trace r)
     = [provision_call (Some "/orgs/1/sec_policy/draft/ip_lists/1")]
  /\ exit_status (outcome r) = Some 0%Z.
Proof. repeat split; vm_compute; reflexivity. Qed.

Example scenario_reordered :
  let r := main args0 world_unchanged in
  changed (default [] (Illumio.ip_ranges stored_iplist)) same_ranges = false
  /\ writes (trace r) = []
  /\ provisions (trace r) = []
  /\ exit_status (outcome r) = Some 0%Z.
Proof. repeat split; vm_compute; reflexivity. Qed.

End Runs.

(** * Further properties of the script *)

(** ** More on the comparison *)

Section ComparisonMore.
Context {W : Type} `{Platform W}.

Lemma from_ip_values_written (new : list string) :
  from_ip_values ((fun ip_range => {| from_ip := Some ip_range |}) <$> new)
  = List.filter (fun x => negb (String.eqb x "")) new.
Proof.
  unfold from_ip_values.
  induction new as [|x new IH]; [done|].
  cbn [fmap list_fmap omap list_omap from_ip List.filter truthy].
  destruct (negb (x =? "")%string); cbn; by rewrite <- IH.
Qed.

Lemma filter_Permutation_all {A} (f : A -> bool) (l : list A) :
  List.filter f l ≡ₚ l <-> forallb f l = true.
Proof.
  split.
  - intros Hperm. apply filter_length_forallb.
    by apply Permutation_length.
  - intros Hall. by rewrite forallb_filter_id.
Qed.

Lemma no_blank_iff (new : list string) :
  forallb (fun x => negb (String.eqb x "")) new = true <-> "" ∉ new.
Proof.
  rewrite forallb_forall. split.
  - intros Hall Hin. apply list_elem_of_In, Hall in Hin. done.
  - intros Hnot x Hin. apply negb_true_iff, String.eqb_neq.
    intros ->. by apply Hnot, list_elem_of_In.
Qed.

Lemma diff_lines_length (label sign : string) (s : gset string) :
  length (diff_lines label sign s) <= 12.
Proof.
  unfold diff_lines. destruct (bool_decide (s = ∅)); [simpl; lia|].
  case_bool_decide as Hsize; cbn [length].
  - rewrite length_fmap, sorted_length.
    change (size s) with (length (elements s)) in Hsize. lia.
  - rewrite length_app, length_fmap, sorted_length, length_take.
    cbn [length]. lia.
Qed.

(** The comparison reports "unchanged" exactly when the stored values and
    the new ones are the same multiset: same strings, same number of times,
    in any order. *)
Theorem compare_unchanged_iff_permutation (existing : list IPRange)
    (B : list string) (w : W) :
  outcome (compare_ip_ranges existing B w) = Returned false
  <-> from_ip_values existing ≡ₚ B.
Proof.
  rewrite compare_ip_ranges_run. unfold outcome. cbn [fst].
  rewrite <- sorted_eq_iff. split.
  - intros [= Hsame]. by apply changed_false_iff.
  - intros Hsame. apply changed_false_iff in Hsame. by rewrite Hsame.
Qed.

(** When the comparison reports "unchanged", both [added] and [removed] are
    empty: a non-empty difference always counts as a change. *)
Theorem compare_unchanged_has_no_diff (existing : list IPRange)
    (B : list string) (w : W) :
  outcome (compare_ip_ranges existing B w) = Returned false ->
  let A := from_ip_values existing in
  added (sorted A) (sorted B) = ∅ /\ removed (sorted A) (sorted B) = ∅.
Proof.
  rewrite compare_ip_ranges_run. unfold outcome. cbn [fst].
  intros [= Hsame]. apply changed_false_iff in Hsame.
  unfold added, removed. rewrite Hsame. cbn zeta.
  by rewrite difference_diag_L.
Qed.

(** The comparison only reads and prints: it returns in every world, leaves
    the world as it is, writes to standard output only, and whatever the
    sizes of the lists it prints one line when nothing changed and between
    3 and 27 lines otherwise. *)
Theorem compare_ip_ranges_only_prints (existing : list IPRange)
    (B : list string) (w : W) :
  exists lines,
    compare_ip_ranges existing B w
    = (Returned (changed existing B), w, Stdout <$> lines)
    /\ (if changed existing B
        then 3 <= length lines <= 27
        else length lines = 1).
Proof.
  exists (compare_lines (from_ip_values existing) B).
  split; [apply compare_ip_ranges_run|].
  unfold compare_lines, changed.
  destruct (bool_decide _); [|done].
  rewrite !length_app. cbn [length].
  pose proof (diff_lines_length "Added" "+"
                (list_to_set B ∖ list_to_set (from_ip_values existing))).
  pose proof (diff_lines_length "Removed" "-"
                (list_to_set (from_ip_values existing) ∖ list_to_set B)).
  lia.
Qed.

(** Round trip of what is written.  Provided the constructor of [IPRange]
    refuses the empty string, the objects line 130 builds from a new list
    (when it accepts every entry) hold the entries in order and compare as
    unchanged against that same list. *)
Theorem written_ranges_compare_unchanged (new : list string)
    (objects : list IPRange) (w : W) :
  IPRange_raises (PyStr "") <> None ->
  comprehension new_IPRange new = Ok objects ->
  from_ip <$> objects = Some <$> new
  /\ outcome (compare_ip_ranges objects new w) = Returned false.
Proof.
  intros Hblank Hbuilt.
  assert (refusal new = None) as Haccepted.
  { rewrite comprehension_new_IPRange in Hbuilt. by destruct (refusal new). }
  rewrite (refusal_None _ Haccepted) in Hbuilt. injection Hbuilt as <-.
  split.
  { rewrite <- list_fmap_compose. by apply list_fmap_ext. }
  rewrite compare_ip_ranges_run. unfold outcome. cbn [fst]. f_equal.
  apply changed_false_iff, sorted_eq_iff.
  rewrite from_ip_values_written. apply filter_Permutation_all, no_blank_iff.
  intros Hin. apply refusal_None_iff in Haccepted.
  rewrite Forall_forall in Haccepted. by apply Hblank, Haccepted.
Qed.

End ComparisonMore.

Section DiffReport.
Context {W : Type} `{Platform W}.

Lemma set_iteration_length (s : gset string) :
  length (set_iteration s) = size s.
Proof. apply Permutation_length, set_iteration_elements. Qed.

Lemma set_iteration_NoDup (s : gset string) : NoDup (set_iteration s).
Proof. rewrite set_iteration_elements. apply NoDup_elements. Qed.

Lemma elem_of_set_iteration (s : gset string) (x : string) :
  x ∈ set_iteration s <-> x ∈ s.
Proof. rewrite set_iteration_elements. apply elem_of_elements. Qed.

(** What the report shows of a difference set (lines 84-92 and 94-102).
    Nothing for an empty set.  Up to ten entries: the count and every entry
    once, in sorted order.  More than ten: the count, ten distinct entries
    of the set in sorted order, and the number of entries left out. *)
Theorem print_diff_sample (label sign : string) (s : gset string) (w : W) :
  let line := fun ip => "    " +:+ sign +:+ " " +:+ ip in
  let header :=
    "  " +:+ label +:+ ": " +:+ str_of_nat (size s) +:+ " IP range(s)" in
  (s = ∅ -> print_diff label sign s w = (Returned tt, w, []))
  /\ (s <> ∅ -> size s <= 10 ->
      exists shown,
        print_diff label sign s w
        = (Returned tt, w, Stdout <$> header :: (line <$> shown))
        /\ shown ≡ₚ elements s
        /\ Sorted String.le shown)
  /\ (10 < size s ->
      exists shown,
        print_diff label sign s w
        = (Returned tt, w,
           Stdout <$> header :: (line <$> shown)
                      ++ ["    ... and " +:+ str_of_nat (size s - 10)
                          +:+ " more"])
        /\ length shown = 10
        /\ NoDup shown
        /\ (forall x, x ∈ shown -> x ∈ s)
        /\ Sorted String.le shown).
Proof.
  intros line header.
  pose proof (print_diff_prints label sign s w) as Hrun.
  unfold diff_lines in Hrun.
  split; [|split].
  - intros ->. rewrite Hrun. case_bool_decide; done.
  - intros Hne Hsize.
    rewrite bool_decide_eq_false_2 in Hrun by done.
    rewrite bool_decide_eq_true_2 in Hrun by done.
    exists (sorted (elements s)).
    split; [done|]. split; [apply sorted_Permutation | apply sorted_Sorted].
  - intros Hsize.
    assert (s <> ∅) as Hne.
    { intros ->. rewrite size_empty in Hsize. lia. }
    rewrite bool_decide_eq_false_2 in Hrun by done.
    rewrite bool_decide_eq_false_2 in Hrun by lia.
    exists (sorted (take 10 (set_iteration s))).
    split; [done|]. split; [|split; [|split]].
    + rewrite sorted_length, length_take, set_iteration_length. lia.
    + rewrite sorted_Permutation.
      eapply sublist_NoDup; [apply set_iteration_NoDup | apply sublist_take].
    + intros x. rewrite sorted_Permutation. intros Hx.
      apply elem_of_set_iteration.
      eapply elem_of_sublist; [exact Hx | apply sublist_take].
    + apply sorted_Sorted.
Qed.

End DiffReport.

(** ** More on the reconcile step *)

Section ReconcileMore.
Context {W : Type} `{Platform W}.

Ltac select_events :=
  unfold outcome, world, trace, creates, updates, writes, calls, diagnostics,
    found, searching, reconcile_error;
  simpl; rewrite ?List.filter_app, ?filter_printed by done; simpl.

(** Splits a reconcile run into its eight paths and rewrites the run by the
    equation of each. *)
Ltac reconcile_paths iplist_name new w :=
  let Hget := fresh "Hget" in
  let Haccepted := fresh "Haccepted" in
  let Hdiff := fresh "Hdiff" in
  let Hcall := fresh "Hcall" in
  let Hrefetch := fresh "Hrefetch" in
  destruct (ip_lists_get iplist_name w) as [[?iplists|?e] ?w1] eqn:Hget;
  [ destruct (refusal new) as [?e|] eqn:Haccepted;
    [ erewrite reconcile_refused by eassumption
    | destruct iplists as [|?existing ?rest];
      [ destruct (ip_lists_create (iplist_data iplist_name new) w1)
          as [[?created|?e] ?w2] eqn:Hcall;
        [ erewrite reconcile_create by eassumption
        | erewrite reconcile_create_fails by eassumption ]
      | destruct (changed (default [] (Illumio.ip_ranges existing)) new)
          eqn:Hdiff;
        [ destruct (ip_lists_update (href existing)
                      (iplist_data iplist_name new) w1)
            as [[?answer|?e] ?w2] eqn:Hcall;
          [ destruct (ip_lists_get_by_reference (href existing) w2)
              as [[?updated|?e] ?w3] eqn:Hrefetch;
            [ erewrite reconcile_update by eassumption
            | erewrite reconcile_refetch_fails by eassumption ]
          | erewrite reconcile_update_fails by eassumption ]
        | erewrite reconcile_unchanged by eassumption ] ] ]
  | erewrite reconcile_search_fails by eassumption ].

(** No exception escapes the reconcile step, whatever the policy engine
    does: it either returns, having written nothing to the error stream, or
    it ends the process with status 1, its last action being the one
    diagnostic it writes. *)
Theorem reconcile_returns_or_exits_1 (iplist_name : string)
    (new : list string) (w : W) :
  let r := create_or_update_iplist iplist_name new w in
  (exists result, outcome r = Returned result /\ diagnostics (trace r) = [])
  \/ (outcome r = Exited 1
      /\ exists e, diagnostics (trace r) = [reconcile_error e]
                   /\ last (trace r) = Some (reconcile_error e)).
Proof.
  intros r. subst r.
  reconcile_paths iplist_name new w;
    first [ left; eexists; split; [reflexivity | by select_events]
          | right; split; [reflexivity|]; eexists;
            split; [by select_events | unfold trace; cbn [snd];
                                       rewrite last_app; reflexivity] ].
Qed.

(** A failing lookup is fatal and nothing is written: the run ends with
    status 1 after the lookup, its only call to the policy engine. *)
Theorem reconcile_lookup_failure_is_fatal (iplist_name : string)
    (new : list string) (w : W) (e : Exn) (w1 : W) :
  ip_lists_get iplist_name w = (Raise e, w1) ->
  let r := create_or_update_iplist iplist_name new w in
  outcome r = Exited 1
  /\ world r = w1
  /\ calls (trace r) = [IpListsGet iplist_name]
  /\ writes (trace r) = []
  /\ diagnostics (trace r)
     = [Stderr ("Error creating/updating IPList: " +:+ exn_msg e)].
Proof.
  intros Hget r. subst r.
  rewrite (reconcile_search_fails _ _ _ _ _ Hget). by select_events.
Qed.

(** Line 130 comes before the branch: when the constructor of [IPRange]
    refuses an entry of the new list, the run ends right after the lookup,
    whatever the lookup found.  The exception is that of the first refused
    entry; it is reported on the error stream and the process exits with
    status 1; nothing is compared, created or updated. *)
Theorem reconcile_refused_entry_is_fatal (iplist_name : string)
    (accepted : list string) (refused : string) (others : list string)
    (w : W) (iplists : list IPList) (w1 : W) (e : Exn) :
  ip_lists_get iplist_name w = (Ok iplists, w1) ->
  Forall (fun x => IPRange_raises (PyStr x) = None) accepted ->
  IPRange_raises (PyStr refused) = Some e ->
  let r :=
    create_or_update_iplist iplist_name (accepted ++ refused :: others) w in
  r = (Exited 1, w1,
       [Stdout ("Searching for existing IPList: " +:+ iplist_name +:+ "...");
        IpListsGet iplist_name;
        Stderr ("Error creating/updating IPList: " +:+ exn_msg e)])
  /\ calls (trace r) = [IpListsGet iplist_name]
  /\ writes (trace r) = [].
Proof.
  intros Hget Haccepted Hrefused r. subst r.
  assert (refusal (accepted ++ refused :: others) = Some e) as Hfirst.
  { induction Haccepted as [|x accepted Hx _ IH]; cbn [app refusal].
    - by rewrite Hrefused.
    - by rewrite Hx. }
  rewrite (reconcile_refused _ _ _ _ _ _ Hget Hfirst). by select_events.
Qed.

Lemma reconcile_writes_length (iplist_name : string) (new : list string)
    (w : W) :
  length (writes (trace (create_or_update_iplist iplist_name new w))) <= 1.
Proof.
  rewrite reconcile_writes.
  destruct (ip_lists_get iplist_name w) as [[[|existing rest]|e] w1];
    destruct (refusal new); try (simpl; lia).
  destruct (changed _ _); simpl; lia.
Qed.

Lemma reconcile_flag_writes (iplist_name : string) (new : list string)
    (w : W) (iplist : IPList) (was_updated : bool) :
  outcome (create_or_update_iplist iplist_name new w)
  = Returned (iplist, was_updated) ->
  length (writes (trace (create_or_update_iplist iplist_name new w)))
  = (if was_updated then 1 else 0).
Proof.
  reconcile_paths iplist_name new w; select_events;
    intros [= <- <-] || intros [=]; reflexivity.
Qed.

(** At most one write call is made in a reconcile run, and when the run
    returns, its flag tells whether one was made: one write when the flag is
    true, none when it is false. *)
Theorem reconcile_flag_tells_write (iplist_name : string)
    (new : list string) (w : W) :
  let r := create_or_update_iplist iplist_name new w in
  length (writes (trace r)) <= 1
  /\ forall iplist was_updated,
       outcome r = Returned (iplist, was_updated) ->
       length (writes (trace r)) = (if was_updated then 1 else 0).
Proof.
  split; [apply reconcile_writes_length|].
  intros iplist was_updated. apply reconcile_flag_writes.
Qed.

(** The same on a feed that does not iterate over strings, and so for the
    call of line 319 whatever the feed. *)
Lemma reconcile_dyn_flag_tells_write (iplist_name : string)
    (ip_ranges : PyVal) (w : W) :
  let r := create_or_update_iplist_dyn iplist_name ip_ranges w in
  length (writes (trace r)) <= 1
  /\ forall iplist was_updated,
       outcome r = Returned (iplist, was_updated) ->
       length (writes (trace r)) = (if was_updated then 1 else 0).
Proof.
  cbn zeta.
  unfold create_or_update_iplist_dyn, try_except, bind, call, lift, raise,
    print, print_err, emit, sys_exit, ret.
  destruct (ip_lists_get iplist_name w) as [[iplists|e] w1];
    [|split; [simpl; lia | intros ? ? [=]]].
  destruct (iterate ip_ranges) as [items|e];
    [|split; [simpl; lia | intros ? ? [=]]].
  destruct (comprehension new_IPRange_dyn items) as [objects|e];
    [|split; [simpl; lia | intros ? ? [=]]].
  destruct iplists as [|existing rest].
  - destruct (ip_lists_create_dyn _ w1) as [[created|e] w2];
      (split; [simpl; lia | intros ? ? [=]; subst; reflexivity])
      || (split; [simpl; lia | intros ? ? [=]]).
  - rewrite compare_ip_ranges_on_run.
    destruct (compare_ip_ranges_dyn _ ip_ranges) as [lines [[|]|e]];
      cbn [fst snd negb].
    + destruct (len ip_ranges) as [n|e]; cbn [fst snd];
        [destruct (ip_lists_update_dyn _ _ w1) as [[answer|e] w2];
         cbn [fst snd];
         [destruct (ip_lists_get_by_reference _ w2) as [[updated|e] w3]|]|];
        select_events;
        (split; [lia | intros ? ? [=]; subst; reflexivity])
        || (split; [lia | intros ? ? [=]]).
    + select_events. split; [lia | intros ? ? [=]; subst; reflexivity].
    + select_events. split; [lia | intros ? ? [=]].
Qed.

Lemma reconcile_step_flag_tells_write (iplist_name : string)
    (ip_ranges : PyVal) (w : W) :
  let r := reconcile_step iplist_name ip_ranges w in
  length (writes (trace r)) <= 1
  /\ forall iplist was_updated,
       outcome r = Returned (iplist, was_updated) ->
       length (writes (trace r)) = (if was_updated then 1 else 0).
Proof.
  unfold reconcile_step. destruct (as_strings ip_ranges) as [strings|].
  - split; [apply reconcile_writes_length|].
    intros iplist was_updated. apply reconcile_flag_writes.
  - apply reconcile_dyn_flag_tells_write.
Qed.

End ReconcileMore.

(** ** More on provisioning and on the fetch step *)

Section ProvisionFetchMore.
Context {W : Type} `{Platform W}.

(** [provision_policy_changes] always returns: it makes exactly one call to
    the policy engine, naming the one reference it was given, and neither an
    exception nor an exit comes out of it.  It writes to the error stream
    exactly when the call raised. *)
Theorem provision_policy_changes_always_returns
    (iplist_href : option string) (w : W) :
  let r := provision_policy_changes iplist_href w in
  let description :=
    "Provision Zscaler IPList: " +:+ str_of_opt iplist_href in
  outcome r = Returned tt
  /\ calls (trace r) = [ProvisionPolicyChanges description [iplist_href]]
  /\ match pce_provision_policy_changes description [iplist_href] w with
     | (Ok changeset, w1) =>
         world r = w1
         /\ diagnostics (trace r) = []
         /\ last (trace r)
            = Some (Stdout ("Workloads affected: "
                            +:+ str_of_Z (workloads_affected changeset)))
     | (Raise e, w1) =>
         world r = w1
         /\ diagnostics (trace r)
            = [Stderr ("Error provisioning policy changes: " +:+ exn_msg e)]
     end.
Proof.
  intros r description. subst r description.
  fold (provision_description iplist_href).
  destruct (pce_provision_policy_changes (provision_description iplist_href)
              [iplist_href] w) as [answer w1] eqn:Hcall.
  rewrite (provision_policy_changes_run _ _ _ _ Hcall).
  by destruct answer.
Qed.

Lemma fetch_result_trace (answer : Raises Response) (w1 : W) :
  exists rest,
    trace (fetch_result answer w1) = fetching ++ rest
    /\ world (fetch_result answer w1) = w1
    /\ length rest <= 1
    /\ forallb is_print rest = true
    /\ (forall v, outcome (fetch_result answer w1) = Returned v ->
        diagnostics rest = []).
Proof.
  assert (forall e, exists rest,
            trace (fetch_raised e w1) = fetching ++ rest
            /\ world (fetch_raised e w1) = w1
            /\ length rest <= 1
            /\ forallb is_print rest = true
            /\ (forall v, outcome (fetch_raised e w1) = Returned v ->
                diagnostics rest = [])) as Hraised.
  { intros e. unfold fetch_raised.
    destruct (fetch_diagnostic e) as [text|].
    - exists [Stderr text].
      split; [done|]. split; [done|]. split; [simpl; lia|].
      split; [done|]. intros v [=].
    - exists [].
      split; [by rewrite app_nil_r|]. split; [done|]. split; [simpl; lia|].
      done. }
  unfold fetch_result.
  destruct answer as [response|e]; [|apply Hraised].
  destruct (raise_for_status response) as [e|]; [apply Hraised|].
  destruct (json response) as [data|e]; [|apply Hraised].
  destruct (Py.get data "prefixes" (PyList [])) as [prefixes|e];
    [|apply Hraised].
  destruct (len prefixes) as [n|e]; [|apply Hraised].
  eexists. split; [done|]. split; [done|]. split; [simpl; lia|]. done.
Qed.

(** Every fetch makes exactly one HTTP request, a GET of the fixed URL with
    a timeout of 30, and nothing else: it is announced on standard output,
    followed by at most one more line (the success line or the diagnostic),
    and the policy engine is not called. *)
Theorem fetch_makes_one_request (w : W) :
  let r := fetch_zscaler_ips w in
  exists rest,
    trace r
    = [Stdout "Fetching IP addresses from https://config.zscaler.com/api/zscaler.net/future/json...";
       HttpGet "https://config.zscaler.com/api/zscaler.net/future/json" 30]
      ++ rest
    /\ world r = snd (requests_get ZSCALER_API_URL 30 w)
    /\ length rest <= 1
    /\ forallb is_print rest = true.
Proof.
  intros r. subst r.
  destruct (requests_get ZSCALER_API_URL 30 w) as [answer w1] eqn:Hget.
  rewrite (fetch_zscaler_ips_run _ _ _ Hget).
  destruct (fetch_result_trace answer w1)
    as (rest & Htrace & Hworld & Hlen & Hprint & _).
  exists rest. by rewrite Htrace, Hworld.
Qed.

(** A successful fetch returns the [prefixes] value of the body as it is,
    in the order of the source and with its duplicates, and prints how many
    entries it has; nothing is written to the error stream. *)
Theorem fetch_returns_prefixes_verbatim (w : W) (response : Response)
    (w1 : W) (kvs : list (string * PyVal)) (items : list PyVal) :
  requests_get ZSCALER_API_URL 30 w = (Ok response, w1) ->
  raise_for_status response = None ->
  json response = Ok (PyDict kvs) ->
  dict_lookup "prefixes" kvs = Some (PyList items) ->
  fetch_zscaler_ips w
  = (Returned (PyList items), w1,
     fetching
     ++ [Stdout ("Successfully fetched " +:+ str_of_nat (length items)
                 +:+ " IP ranges from Zscaler")]).
Proof.
  intros Hget Hstatus Hjson Hfield.
  rewrite (fetch_zscaler_ips_run _ _ _ Hget). unfold fetch_result.
  rewrite Hstatus, Hjson. unfold Py.get. by rewrite Hfield.
Qed.

(** Bodies the [except] clauses do not cover.  When the body is valid JSON
    but not an object, or when its [prefixes] value has no length (null, a
    boolean, a number), the [AttributeError] or [TypeError] propagates out
    of the function: it neither returns nor calls [sys.exit], and it writes
    no diagnostic of its own. *)
Theorem fetch_unhandled_bodies (w : W) (response : Response) (w1 : W)
    (body : PyVal) :
  requests_get ZSCALER_API_URL 30 w = (Ok response, w1) ->
  raise_for_status response = None ->
  json response = Ok body ->
  let r := fetch_zscaler_ips w in
  ((forall kvs, body <> PyDict kvs) ->
   exists e, exn_kind e = AttributeError /\ r = (Raised e, w1, fetching))
  /\ (forall kvs prefixes,
        body = PyDict kvs ->
        dict_lookup "prefixes" kvs = Some prefixes ->
        sized prefixes = false ->
        exists e, exn_kind e = TypeError /\ r = (Raised e, w1, fetching)).
Proof.
  intros Hget Hstatus Hjson r. subst r.
  rewrite (fetch_zscaler_ips_run _ _ _ Hget). unfold fetch_result.
  rewrite Hstatus, Hjson. split.
  - intros Hbody.
    destruct body as [|b|z|literal|text|items|pairs];
      try (eexists; split; [|reflexivity]; reflexivity).
    by destruct (Hbody pairs).
  - intros kvs prefixes -> Hfield Hsized. unfold Py.get. rewrite Hfield.
    destruct prefixes; try discriminate Hsized;
      eexists; (split; [|reflexivity]); reflexivity.
Qed.

End ProvisionFetchMore.

(** ** Exit statuses *)

Section Exits.
Context {W : Type}.

Lemma exits_1_ret {A} (a : A) : exits_1 (W:=W) (ret a).
Proof. intros w status [=]. Qed.

Lemma exits_1_sys_exit {A} : exits_1 (@sys_exit W A 1).
Proof. by intros w status [= <-]. Qed.

Lemma exits_1_raise {A} e : exits_1 (@raise W A e).
Proof. intros w status [=]. Qed.

Lemma exits_1_lift {A} (r : Raises A) : exits_1 (W:=W) (lift r).
Proof. destruct r; [apply exits_1_ret | apply exits_1_raise]. Qed.

Lemma exits_1_emit ev : exits_1 (@emit W ev).
Proof. intros w status [=]. Qed.

Lemma exits_1_call {A} ev (op : W -> Raises A * W) : exits_1 (call ev op).
Proof.
  intros w status. unfold call, outcome.
  by destruct (op w) as [[a|e] w1].
Qed.

Lemma exits_1_local {A} (op : W -> Raises A * W) : exits_1 (local op).
Proof.
  intros w status. unfold local, outcome.
  by destruct (op w) as [[a|e] w1].
Qed.

Lemma exits_1_bind {A B} (m : Run W A) (k : A -> Run W B) :
  exits_1 m -> (forall a, exits_1 (k a)) -> exits_1 (bind m k).
Proof.
  intros Hm Hk w status. specialize (Hm w). unfold bind, outcome in *.
  destruct (m w) as [[[a|status'|e] w1] t1]; cbn [fst] in *;
    try done; [|by intros [= <-]; apply Hm].
  specialize (Hk a w1 status). unfold outcome in Hk.
  by destruct (k a w1) as [[o w2] t2].
Qed.

Lemma exits_1_try_except {A} (body : Run W A) handler :
  exits_1 body ->
  (forall e h, handler e = Some h -> exits_1 h) ->
  exits_1 (try_except body handler).
Proof.
  intros Hbody Hhandler w status. specialize (Hbody w).
  unfold try_except, outcome in *.
  destruct (body w) as [[[a|status'|e] w1] t1]; cbn [fst] in *;
    try done; [by intros [= <-]; apply Hbody|].
  destruct (handler e) as [h|] eqn:Hh; [|done].
  specialize (Hhandler e h Hh w1 status). unfold outcome in Hhandler.
  by destruct (h w1) as [[o w2] t2].
Qed.

Lemma exits_1_prints {A} (m : Run W A) a lines :
  prints m a lines -> exits_1 m.
Proof. intros Hm w status. by rewrite Hm. Qed.

End Exits.

(** Discharges [exits_1 m] for the straight-line parts of the script. *)
Ltac exits_step :=
  match goal with
  | |- exits_1 (bind _ _) => apply exits_1_bind; [|intros ?]
  | |- exits_1 (ret _) => apply exits_1_ret
  | |- exits_1 (sys_exit 1) => apply exits_1_sys_exit
  | |- exits_1 (raise _) => apply exits_1_raise
  | |- exits_1 (lift _) => apply exits_1_lift
  | |- exits_1 (local _) => apply exits_1_local
  | |- exits_1 (print _) => apply exits_1_emit
  | |- exits_1 (print_err _) => apply exits_1_emit
  | |- exits_1 (call _ _) => apply exits_1_call
  | |- exits_1 (if ?b then _ else _) => destruct b
  | |- exits_1 (match ?x with Some _ => _ | None => _ end) => destruct x
  | |- exits_1 (match ?x with [] => _ | _ :: _ => _ end) => destruct x
  end.

Section ExitsOfScript.
Context {W : Type} `{Platform W}.

Lemma fetch_exits_1 : exits_1 (@fetch_zscaler_ips W _).
Proof.
  unfold fetch_zscaler_ips. apply exits_1_try_except.
  - repeat exits_step.
  - intros e h Hh. destruct (exn_kind e); inversion Hh; repeat exits_step.
Qed.

Lemma main_prepare_exits_1 (args : Args) : exits_1 (main_prepare args).
Proof.
  unfold main_prepare. repeat exits_step.
  - apply fetch_exits_1.
  - intros w status [=].
  - apply exits_1_try_except; [repeat exits_step|].
    intros e h [= <-]. repeat exits_step.
Qed.

Lemma reconcile_exits_1 (iplist_name : string) (new : list string) :
  exits_1 (create_or_update_iplist iplist_name new).
Proof.
  unfold create_or_update_iplist. apply exits_1_try_except.
  - repeat exits_step.
    eapply exits_1_prints, compare_ip_ranges_prints.
  - intros e h [= <-]. repeat exits_step.
Qed.

Lemma reconcile_dyn_exits_1 (iplist_name : string) (ip_ranges : PyVal) :
  exits_1 (create_or_update_iplist_dyn iplist_name ip_ranges).
Proof.
  unfold create_or_update_iplist_dyn. apply exits_1_try_except.
  - repeat exits_step.
    intros w status. rewrite compare_ip_ranges_on_run. unfold outcome.
    cbn [fst]. by destruct (compare_ip_ranges_dyn _ _).2.
  - intros e h [= <-]. repeat exits_step.
Qed.

Lemma reconcile_step_exits_1 (iplist_name : string) (ip_ranges : PyVal) :
  exits_1 (reconcile_step iplist_name ip_ranges).
Proof.
  unfold reconcile_step. destruct (as_strings ip_ranges).
  - apply reconcile_exits_1.
  - apply reconcile_dyn_exits_1.
Qed.

Lemma provision_exits_1 (iplist_href : option string) :
  exits_1 (provision_policy_changes iplist_href).
Proof.
  unfold provision_policy_changes. repeat exits_step.
  apply exits_1_try_except; [repeat exits_step|].
  intros e h [= <-]. repeat exits_step.
Qed.

Lemma main_exits_1 (args : Args) : exits_1 (main args).
Proof.
  unfold main. repeat exits_step.
  - apply main_prepare_exits_1.
  - unfold main_reconcile. repeat exits_step.
    + apply reconcile_step_exits_1.
    + apply provision_exits_1.
Qed.

(** Once the command line is parsed, the only exit statuses of a run are 0
    and 1, whatever the feed and the policy engine answer: whenever [main]
    ends the process with [sys.exit], the status is 1; an exception that
    escapes makes the interpreter exit with 1; otherwise [main] returns and
    the status is 0. *)
Theorem main_exit_status_is_0_or_1 (args : Args) (w : W) :
  let r := main args w in
  (exit_status (outcome r) = Some 0%Z /\ outcome r = Returned tt)
  \/ (exit_status (outcome r) = Some 1%Z
      /\ (outcome r = Exited 1 \/ exists e, outcome r = Raised e)).
Proof.
  intros r. subst r. pose proof (main_exits_1 args w) as Hexit.
  destruct (outcome (main args w)) as [[]|status|e]; simpl; eauto.
  right. rewrite (Hexit status eq_refl). eauto.
Qed.

End ExitsOfScript.

(** ** The steps of [main] before the reconcile step *)

Section MainMore.
Context {W : Type} `{Platform W}.

Lemma filter_weaker (P Q : Event -> bool) (t : list Event) :
  (forall ev, P ev = true -> Q ev = true) ->
  List.filter Q t = [] -> List.filter P t = [].
Proof.
  intros Hsub. induction t as [|ev t IH]; [done|]. simpl.
  destruct (Q ev) eqn:HQ; [done|]. intros Ht.
  destruct (P ev) eqn:HP; [|by apply IH].
  apply Hsub in HP. congruence.
Qed.

Lemma calls_writes (t : list Event) : calls t = [] -> writes t = [].
Proof. apply filter_weaker. by intros []. Qed.

Lemma calls_provisions (t : list Event) : calls t = [] -> provisions t = [].
Proof. apply filter_weaker. by intros []. Qed.

Lemma fetch_never_calls : never is_call (@fetch_zscaler_ips W _).
Proof.
  unfold fetch_zscaler_ips. apply never_try_except.
  - repeat never_step.
  - intros e h Hh. destruct (exn_kind e); inversion Hh; repeat never_step.
Qed.

Lemma main_prepare_never_calls (args : Args) :
  never is_call (main_prepare args).
Proof.
  unfold main_prepare. repeat never_step.
  - apply fetch_never_calls.
  - intros w. reflexivity.
  - apply never_try_except; [repeat never_step|].
    intros e h [= <-]. repeat never_step.
Qed.

Lemma missing_credential_None (args : Args) :
  missing_credential args = None ->
  truthy (pce_host args) = true /\ truthy (api_key args) = true
  /\ truthy (api_secret args) = true.
Proof.
  unfold missing_credential.
  destruct (truthy (pce_host args)), (truthy (api_key args)),
    (truthy (api_secret args)); simpl; done.
Qed.

Lemma main_prepare_missing_credential (args : Args) (w : W) text :
  missing_credential args = Some text ->
  main_prepare args w = (Exited 1, w, [Stderr text]).
Proof.
  unfold missing_credential, main_prepare, bind.
  destruct (truthy (pce_host args)); simpl; [|by intros [= <-]].
  destruct (truthy (api_key args)); simpl; [|by intros [= <-]].
  destruct (truthy (api_secret args)); simpl; [done|by intros [= <-]].
Qed.

(** When [main_prepare] does not return, [main] ends as it does. *)
Lemma main_stops_with_prepare (args : Args) (w : W) o w1 t :
  main_prepare args w = (o, w1, t) ->
  (forall fetched, o <> Returned fetched) ->
  trace (main args w) = t /\ world (main args w) = w1
  /\ exit_status (outcome (main args w)) = exit_status o.
Proof.
  intros Hprep Hstop. unfold main, bind. rewrite Hprep.
  destruct o as [fetched|status|e]; [by destruct (Hstop fetched)|done..].
Qed.

(** A missing credential stops the run before anything else happens: the
    first missing one among host, key and secret is reported on the error
    stream and the process exits with status 1; no HTTP request is made and
    the policy engine is not contacted. *)
Theorem main_missing_credential_exits_first (args : Args) (w : W)
    (text : string) :
  missing_credential args = Some text ->
  main args w = (Exited 1, w, [Stderr text]).
Proof.
  intros Hmissing. unfold main, bind.
  by rewrite (main_prepare_missing_credential _ _ _ Hmissing).
Qed.

Lemma main_prepare_fetch_stops (args : Args) (w : W) o w1 t :
  missing_credential args = None ->
  fetch_zscaler_ips w = (o, w1, t) ->
  (forall fetched, o <> Returned fetched) ->
  exists o', main_prepare args w = (o', w1, t)
             /\ (forall fetched, o' <> Returned fetched)
             /\ exit_status o' = exit_status o.
Proof.
  intros (Hhost & Hkey & Hsecret)%missing_credential_None Hfetch Hstop.
  unfold main_prepare, bind. rewrite Hhost, Hkey, Hsecret. cbn [negb].
  unfold ret at 1 2 3. cbn [app]. rewrite Hfetch.
  destruct o as [fetched|status|e]; [by destruct (Hstop fetched)|..];
    eexists; split; try reflexivity; done.
Qed.

(** The fetch comes first: when it does not return (it exits, or an
    exception escapes it), the run stops there with the same exit status;
    nothing more is printed and the policy engine is never called. *)
Theorem main_stops_when_fetch_fails (args : Args) (w : W)
    (o : Outcome PyVal) (w1 : W) (t : list Event) :
  missing_credential args = None ->
  fetch_zscaler_ips w = (o, w1, t) ->
  (forall fetched, o <> Returned fetched) ->
  let r := main args w in
  trace r = t
  /\ world r = w1
  /\ exit_status (outcome r) = exit_status o
  /\ calls (trace r) = [].
Proof.
  intros Hcred Hfetch Hstop r. subst r.
  destruct (main_prepare_fetch_stops _ _ _ _ _ Hcred Hfetch Hstop)
    as (o' & Hprep & Hstop' & Hstatus).
  destruct (main_stops_with_prepare _ _ _ _ _ Hprep Hstop')
    as (Htrace & Hworld & Hexit).
  rewrite Htrace, Hworld, Hexit, Hstatus. repeat split.
  pose proof (fetch_never_calls w) as Hcalls.
  rewrite Hfetch in Hcalls. exact Hcalls.
Qed.

Lemma fetch_returned (w : W) fetched w1 t1 :
  fetch_zscaler_ips w = (Returned fetched, w1, t1) ->
  exists line, t1 = fetching ++ [Stdout line].
Proof.
  destruct (requests_get ZSCALER_API_URL 30 w) as [answer w'] eqn:Hget.
  rewrite (fetch_zscaler_ips_run _ _ _ Hget).
  assert (forall e, fetch_raised e w' <> (Returned fetched, w1, t1)) as Hr.
  { intros e. unfold fetch_raised. by destruct (fetch_diagnostic e). }
  unfold fetch_result.
  destruct answer as [response|e]; [|by intros ?%Hr].
  destruct (raise_for_status response) as [e|]; [by intros ?%Hr|].
  destruct (json response) as [data|e]; [|by intros ?%Hr].
  destruct (Py.get data "prefixes" (PyList [])) as [prefixes|e];
    [|by intros ?%Hr].
  destruct (len prefixes) as [n|e]; [|by intros ?%Hr].
  intros [= _ _ <-]. eauto.
Qed.

(** A failure to set up the client (the constructor, [set_credentials] or,
    with [--no-verify-ssl], [set_tls_settings] raises) is fatal: after the
    fetch has been made, the run reports the error on the error stream and
    exits with status 1 without any call to the policy engine. *)
Theorem main_connection_failure_is_fatal (args : Args) (w : W)
    (fetched : PyVal) (w1 : W) (t1 : list Event) (e : Exn) (w2 : W) :
  missing_credential args = None ->
  fetch_zscaler_ips w = (Returned fetched, w1, t1) ->
  connect_fails args w1 e w2 ->
  let r := main args w in
  outcome r = Exited 1
  /\ world r = w2
  /\ diagnostics (trace r)
     = [Stderr ("Error connecting to Illumio PCE: " +:+ exn_msg e)]
  /\ calls (trace r) = []
  /\ t1 `prefix_of` trace r.
Proof.
  intros Hcred Hfetch Hconnect r. subst r.
  destruct (fetch_returned _ _ _ _ Hfetch) as [line ->].
  assert (exists t2,
            main_prepare args w
            = (Exited 1, w2, (fetching ++ [Stdout line]) ++ t2)
            /\ diagnostics t2
               = [Stderr ("Error connecting to Illumio PCE: "
                          +:+ exn_msg e)])
    as (t2 & Hprep & Hdiag).
  { apply missing_credential_None in Hcred as (Hhost & Hkey & Hsecret).
    unfold main_prepare, bind. rewrite Hhost, Hkey, Hsecret. cbn [negb].
    unfold ret at 1 2 3. cbn [app]. rewrite Hfetch.
    unfold environ, try_except, bind, local, print, print_err, emit,
      sys_exit.
    destruct (negb (truthy (environ_get "ILLUMIO_ORG_ID" w1))
              && (org_id args =? 1)%Z);
      destruct Hconnect as [e w2 Hc|w2 e w3 Hc Hs|w2 w3 e w4 Hc Hs Hno Ht];
      rewrite ?Hc; cbn -[String.append]; rewrite ?Hs; cbn -[String.append];
      rewrite ?Hno; cbn -[String.append]; rewrite ?Ht;
      cbn -[String.append];
      (eexists; split; [reflexivity|reflexivity]). }
  assert (forall v : PyVal, @Exited PyVal 1 <> Returned v) as Hstop by done.
  destruct (main_stops_with_prepare _ _ _ _ _ Hprep Hstop)
    as (Htrace & Hworld & Hexit).
  pose proof (main_prepare_never_calls args w) as Hcalls.
  rewrite Hprep in Hcalls. unfold trace at 1 in Hcalls. cbn [snd] in Hcalls.
  rewrite Htrace, Hworld.
  split.
  { unfold main, bind. by rewrite Hprep. }
  split; [done|]. split.
  { unfold diagnostics in *. rewrite !List.filter_app, Hdiag. reflexivity. }
  split; [exact Hcalls|]. by exists t2.
Qed.

End MainMore.

(** ** The whole run *)

Section RunSummary.
Context {W : Type} `{Platform W}.

Lemma reconcile_step_returns_writes (args : Args) (w : W) iplist was_updated
    w2 t :
  reconcile_step_returns args w (iplist, was_updated) w2 t ->
  length (writes t) = (if was_updated then 1 else 0).
Proof.
  intros (fetched & w1 & t1 & t2 & Hprep & Hrec & ->).
  pose proof (main_prepare_never_calls args w) as H1.
  rewrite Hprep in H1. apply calls_writes in H1.
  destruct (reconcile_step_flag_tells_write (iplist_name args) fetched w1)
    as [_ H2].
  specialize (H2 iplist was_updated).
  rewrite Hrec in H2. unfold trace in *. cbn [snd] in *.
  unfold writes in *. rewrite List.filter_app, H1. by apply H2.
Qed.

Lemma writes_provision_trace (iplist_href : option string) answer :
  writes (provision_trace iplist_href answer) = [].
Proof. by destruct answer. Qed.

(** Every run of [main] from the parsed arguments on, whatever the feed and
    the policy engine answer, is of one of three kinds.  It completes having
    written once to the IPList and having requested provisioning once,
    ending with the success line.  Or it completes without any write and
    without provisioning, ending with the "no changes" line.  Or it does not
    complete: then provisioning was never requested and at most one write
    was made.  So provisioning is only ever requested after a write, a
    completed run provisions exactly when it wrote, and no run writes or
    provisions twice. *)
Theorem main_run_summary (args : Args) (w : W) :
  let r := main args w in
  (outcome r = Returned tt
   /\ last (trace r) = Some completed
   /\ length (writes (trace r)) = 1
   /\ length (provisions (trace r)) = 1)
  \/ (outcome r = Returned tt
      /\ last (trace r) = Some completed_unchanged
      /\ writes (trace r) = []
      /\ provisions (trace r) = [])
  \/ ((forall v, outcome r <> Returned v)
      /\ provisions (trace r) = []
      /\ length (writes (trace r)) <= 1).
Proof.
  intros r. subst r.
  assert ((exists iplist was_updated w2 t,
             reconcile_step_returns args w (iplist, was_updated) w2 t)
          \/ ((forall v, outcome (main args w) <> Returned v)
              /\ provisions (trace (main args w)) = []
              /\ length (writes (trace (main args w))) <= 1)) as [Hrec|Hstop].
  { pose proof (main_prepare_never_calls args w) as H1.
    unfold main, bind, outcome, trace in *.
    destruct (main_prepare args w) as [[o w1] t1] eqn:Hprep. cbn [snd] in H1.
    pose proof (calls_writes _ H1) as H1w.
    pose proof (calls_provisions _ H1) as H1p.
    destruct o as [fetched|status|e];
      try (right; cbn [fst snd]; rewrite H1w, H1p; repeat split;
           [done | simpl; lia]).
    pose proof (reconcile_step_never_provisions (iplist_name args) fetched w1)
      as H2p.
    destruct (reconcile_step_flag_tells_write (iplist_name args) fetched w1)
      as [H2w _].
    unfold main_reconcile, bind, trace in *.
    destruct (reconcile_step (iplist_name args) fetched w1)
      as [[o w2] t2] eqn:Hrec. cbn [snd] in H2p, H2w.
    destruct o as [[iplist was_updated]|status|e];
      try (right; cbn [fst snd]; unfold provisions, writes in *;
           rewrite !List.filter_app, H1w, H1p, H2p; repeat split;
           [done | exact H2w]).
    left. exists iplist, was_updated, w2, (t1 ++ t2).
    by exists fetched, w1, t1, t2. }
  - destruct Hrec as (iplist & [|] & w2 & t & Hrec).
    + left.
      destruct (pce_provision_policy_changes
                  (provision_description (href iplist)) [href iplist] w2)
        as [answer w3] eqn:Hcall.
      rewrite (main_run_changed _ _ _ _ _ _ _ Hrec Hcall).
      unfold outcome, trace. cbn [fst snd].
      split; [done|]. split.
      { rewrite !app_assoc. apply last_snoc. }
      unfold writes, provisions. rewrite !List.filter_app.
      fold (writes t) (provisions t)
        (writes (provision_trace (href iplist) answer))
        (provisions (provision_trace (href iplist) answer)).
      rewrite writes_provision_trace, provisions_provision_trace,
        (reconcile_step_returns_never_provisions _ _ _ _ _ Hrec).
      rewrite !length_app, (reconcile_step_returns_writes _ _ _ _ _ _ Hrec).
      done.
    + right. left.
      rewrite (main_run_unchanged _ _ _ _ _ Hrec).
      unfold outcome, trace. cbn [fst snd].
      split; [done|]. split.
      { change (t ++ [Stdout ("IPList href: " +:+ str_of_opt (href iplist));
                      completed_unchanged])
          with (t ++ [Stdout ("IPList href: " +:+ str_of_opt (href iplist))]
                  ++ [completed_unchanged]).
        rewrite app_assoc. apply last_snoc. }
      unfold writes, provisions. rewrite !List.filter_app.
      fold (writes t) (provisions t).
      rewrite (reconcile_step_returns_never_provisions _ _ _ _ _ Hrec).
      pose proof (reconcile_step_returns_writes _ _ _ _ _ _ Hrec) as Hw.
      apply nil_length_inv in Hw. by rewrite Hw.
  - right. right. exact Hstop.
Qed.

End RunSummary.

(** ** An empty new list *)

Section EmptyList.
Context {W : Type} `{Platform W}.

Lemma changed_against_empty (existing : list IPRange) :
  changed existing [] = bool_decide (from_ip_values existing <> []).
Proof.
  unfold changed. apply bool_decide_ext.
  change (sorted []) with (@nil string).
  split; intros Hne Heq; apply Hne.
  - by rewrite Heq.
  - apply Permutation_nil_r. rewrite <- Heq. symmetry.
    apply sorted_Permutation.
Qed.

(** The script does not guard against an empty new list.  With no stored
    resource it creates one without ranges; with a stored resource that has
    at least one non-empty range it submits an update without ranges, that
    is, it empties the stored list; only a stored resource that is already
    empty is left alone. *)
Theorem reconcile_empty_list_empties (iplist_name : string) (w : W) :
  let data :=
    {| href := None;
       name := Some iplist_name;
       description := Some "Zscaler IP ranges - Auto-updated";
       ip_ranges := Some [] |} in
  writes (trace (create_or_update_iplist iplist_name [] w))
  = match ip_lists_get iplist_name w with
    | (Ok [], _) => [IpListsCreate data]
    | (Ok (existing :: _), _) =>
        if bool_decide
             (from_ip_values (default [] (Illumio.ip_ranges existing)) <> [])
        then [IpListsUpdate (href existing) data]
        else []
    | (Raise _, _) => []
    end.
Proof.
  cbn zeta. rewrite reconcile_writes.
  destruct (ip_lists_get iplist_name w) as [[[|existing rest]|e] w1];
    [done| |done].
  by rewrite changed_against_empty.
Qed.

End EmptyList.

(** ** More runs on the reference world *)

Module MoreRuns.
Import Sim Scenario Scenario2.

Lemma compare_unchanged_has_no_diff_witness :
  let existing := default [] (Illumio.ip_ranges stored_iplist) in
  let A := from_ip_values existing in
  outcome (compare_ip_ranges existing same_ranges world_unchanged)
  = Returned false
  /\ added (sorted A) (sorted same_ranges) = ∅
  /\ removed (sorted A) (sorted same_ranges) = ∅.
Proof.
  cbn zeta.
  assert (outcome (compare_ip_ranges
                     (default [] (Illumio.ip_ranges stored_iplist))
                     same_ranges world_unchanged)
          = Returned false) as Hsame by (vm_compute; reflexivity).
  split; [exact Hsame|].
  exact (compare_unchanged_has_no_diff _ _ _ Hsame).
Defined.

Lemma print_diff_sample_witness :
  10 < size eleven
  /\ exists shown,
       print_diff "Added" "+" eleven world_changed
       = (Returned tt, world_changed,
          Stdout <$> "  Added: 11 IP range(s)"
                     :: ((fun ip => "    + " +:+ ip) <$> shown)
                     ++ ["    ... and 1 more"])
       /\ length shown = 10
       /\ NoDup shown
       /\ (forall x, x ∈ shown -> x ∈ eleven).
Proof.
  assert (size eleven = 11) as Hsize by (vm_compute; reflexivity).
  assert (10 < size eleven) as Hmore by (rewrite Hsize; lia).
  split; [exact Hmore|].
  destruct (print_diff_sample "Added" "+" eleven world_changed)
    as (_ & _ & Htruncated).
  destruct (Htruncated Hmore) as (shown & Hrun & Hlen & Hnodup & Hin & _).
  exists shown. rewrite Hsize in Hrun.
  split; [exact Hrun|]. split; [exact Hlen|]. split; [exact Hnodup|exact Hin].
Defined.

Lemma reconcile_lookup_failure_is_fatal_witness :
  let w := world0 new_ranges [stored_iplist] [OpGet] in
  let r := create_or_update_iplist "Zscaler IPs" new_ranges w in
  ip_lists_get "Zscaler IPs" w = (Raise (failure "API error"), w)
  /\ outcome r = Exited 1
  /\ writes (trace r) = []
  /\ diagnostics (trace r)
     = [Stderr "Error creating/updating IPList: API error"].
Proof.
  cbn zeta.
  set (w := world0 new_ranges [stored_iplist] [OpGet]).
  assert (ip_lists_get "Zscaler IPs" w = (Raise (failure "API error"), w))
    as Hget by reflexivity.
  destruct (reconcile_lookup_failure_is_fatal "Zscaler IPs" new_ranges w
              _ _ Hget) as (Hout & _ & _ & Hwrites & Hdiag).
  split; [exact Hget|]. split; [exact Hout|].
  split; [exact Hwrites | exact Hdiag].
Defined.

Lemma reconcile_flag_tells_write_witness :
  let r := create_or_update_iplist "Zscaler IPs" new_ranges world_changed in
  outcome r = Returned (updated_iplist, true)
  /\ length (writes (trace r)) = 1.
Proof.
  cbn zeta.
  assert (outcome (create_or_update_iplist "Zscaler IPs" new_ranges
                     world_changed)
          = Returned (updated_iplist, true)) as Hout
    by (vm_compute; reflexivity).
  split; [exact Hout|].
  destruct (reconcile_flag_tells_write "Zscaler IPs" new_ranges world_changed)
    as [_ Hflag].
  exact (Hflag _ _ Hout).
Defined.

Lemma fetch_returns_prefixes_verbatim_witness :
  let items := PyStr <$> ["2.2.2.0/24"; "2.2.2.0/24"; "not a range"] in
  let response :=
    {| raise_for_status := None;
       json := Ok (PyDict [("prefixes", PyList items)]) |} in
  let w := world_of_body (PyDict [("prefixes", PyList items)]) in
  requests_get ZSCALER_API_URL 30 w = (Ok response, w)
  /\ dict_lookup "prefixes" [("prefixes", PyList items)] = Some (PyList items)
  /\ fetch_zscaler_ips w
     = (Returned (PyList items), w,
        fetching ++ [Stdout "Successfully fetched 3 IP ranges from Zscaler"]).
Proof.
  cbn zeta.
  set (items := PyStr <$> ["2.2.2.0/24"; "2.2.2.0/24"; "not a range"]).
  set (w := world_of_body (PyDict [("prefixes", PyList items)])).
  assert (requests_get ZSCALER_API_URL 30 w
          = (Ok {| raise_for_status := None;
                   json := Ok (PyDict [("prefixes", PyList items)]) |}, w))
    as Hget by reflexivity.
  assert (dict_lookup "prefixes" [("prefixes", PyList items)]
          = Some (PyList items)) as Hfield by reflexivity.
  split; [exact Hget|]. split; [exact Hfield|].
  exact (fetch_returns_prefixes_verbatim w _ w _ items Hget eq_refl eq_refl
           Hfield).
Defined.

Lemma fetch_unhandled_bodies_witness :
  let not_object := world_of_body (PyList [PyStr "10.0.0.0/8"]) in
  let null_field := world_of_body (PyDict [("prefixes", PyNone)]) in
  (exists e, exn_kind e = AttributeError
             /\ fetch_zscaler_ips not_object
                = (Raised e, not_object, fetching))
  /\ (exists e, exn_kind e = TypeError
                /\ fetch_zscaler_ips null_field
                   = (Raised e, null_field, fetching)).
Proof.
  cbn zeta. split.
  - set (w := world_of_body (PyList [PyStr "10.0.0.0/8"])).
    assert (requests_get ZSCALER_API_URL 30 w = (http w, w)) as Hget
      by reflexivity.
    destruct (fetch_unhandled_bodies w _ w (PyList [PyStr "10.0.0.0/8"])
                Hget eq_refl eq_refl) as [Hnot _].
    apply Hnot. intros kvs. discriminate.
  - set (w := world_of_body (PyDict [("prefixes", PyNone)])).
    assert (requests_get ZSCALER_API_URL 30 w = (http w, w)) as Hget
      by reflexivity.
    destruct (fetch_unhandled_bodies w _ w (PyDict [("prefixes", PyNone)])
                Hget eq_refl eq_refl) as [_ Hfield].
    apply (Hfield [("prefixes", PyNone)] PyNone); reflexivity.
Defined.

Lemma main_missing_credential_exits_first_witness :
  missing_credential args_no_key
  = Some "Error: --api-key or ILLUMIO_API_KEY environment variable is required"
  /\ main args_no_key world_changed
     = (Exited 1, world_changed,
        [Stderr "Error: --api-key or ILLUMIO_API_KEY environment variable is required"]).
Proof.
  assert (missing_credential args_no_key
          = Some "Error: --api-key or ILLUMIO_API_KEY environment variable is required")
    as Hmissing by reflexivity.
  split; [exact Hmissing|].
  exact (main_missing_credential_exits_first args_no_key world_changed _
           Hmissing).
Defined.

Lemma main_stops_when_fetch_fails_witness :
  let t := fetching ++ [Stderr "Error fetching Zscaler IPs: Read timed out."] in
  missing_credential args0 = None
  /\ fetch_zscaler_ips world_timeout = (Exited 1, world_timeout, t)
  /\ trace (main args0 world_timeout) = t
  /\ exit_status (outcome (main args0 world_timeout)) = Some 1%Z
  /\ calls (trace (main args0 world_timeout)) = [].
Proof.
  cbn zeta.
  assert (missing_credential args0 = None) as Hcred by reflexivity.
  assert (fetch_zscaler_ips world_timeout
          = (Exited 1, world_timeout,
             fetching
             ++ [Stderr "Error fetching Zscaler IPs: Read timed out."]))
    as Hfetch by reflexivity.
  assert (forall fetched : PyVal, @Exited PyVal 1 <> Returned fetched)
    as Hstop by (intros fetched; discriminate).
  destruct (main_stops_when_fetch_fails args0 world_timeout _ _ _
              Hcred Hfetch Hstop) as (Htrace & _ & Hexit & Hcalls).
  split; [exact Hcred|]. split; [exact Hfetch|]. split; [exact Htrace|].
  split; [exact Hexit | exact Hcalls].
Defined.

Lemma main_connection_failure_is_fatal_witness :
  let w := world0 new_ranges [stored_iplist] [OpSetCredentials] in
  let e := failure "API error" in
  missing_credential args0 = None
  /\ fetch_zscaler_ips w
     = (Returned (PyList (PyStr <$> new_ranges)), w,
        fetching ++ [Stdout "Successfully fetched 2 IP ranges from Zscaler"])
  /\ connect_fails args0 w e w
  /\ outcome (main args0 w) = Exited 1
  /\ diagnostics (trace (main args0 w))
     = [Stderr "Error connecting to Illumio PCE: API error"]
  /\ calls (trace (main args0 w)) = [].
Proof.
  cbn zeta.
  set (w := world0 new_ranges [stored_iplist] [OpSetCredentials]).
  assert (missing_credential args0 = None) as Hcred by reflexivity.
  assert (fetch_zscaler_ips w
          = (Returned (PyList (PyStr <$> new_ranges)), w,
             fetching
             ++ [Stdout "Successfully fetched 2 IP ranges from Zscaler"]))
    as Hfetch by reflexivity.
  assert (connect_fails args0 w (failure "API error") w) as Hconnect
    by (apply set_credentials_fails with (w2 := w); reflexivity).
  destruct (main_connection_failure_is_fatal args0 w _ _ _ _ _
              Hcred Hfetch Hconnect) as (Hout & _ & Hdiag & Hcalls & _).
  split; [exact Hcred|]. split; [exact Hfetch|]. split; [exact Hconnect|].
  split; [exact Hout|]. split; [exact Hdiag | exact Hcalls].
Defined.

Lemma written_ranges_compare_unchanged_witness :
  let objects := default [] (Illumio.ip_ranges updated_iplist) in
  IPRange_raises (PyStr "") <> None
  /\ comprehension new_IPRange new_ranges = Ok objects
  /\ outcome (compare_ip_ranges objects new_ranges world_changed)
     = Returned false.
Proof.
  cbn zeta.
  assert (IPRange_raises (PyStr "") <> None) as Hblank
    by (vm_compute; discriminate).
  assert (comprehension new_IPRange new_ranges
          = Ok (default [] (Illumio.ip_ranges updated_iplist))) as Hbuilt
    by reflexivity.
  destruct (written_ranges_compare_unchanged new_ranges _ world_changed
              Hblank Hbuilt) as [_ Hsame].
  split; [exact Hblank|]. split; [exact Hbuilt | exact Hsame].
Defined.

Lemma reconcile_refused_entry_is_fatal_witness :
  let w := world0 ranges_with_host_bits [stored_iplist] [] in
  let r := create_or_update_iplist "Zscaler IPs" ranges_with_host_bits w in
  ip_lists_get "Zscaler IPs" w = (Ok [stored_iplist], w)
  /\ IPRange_raises (PyStr "2.2.2.0/24") = None
  /\ IPRange_raises (PyStr "10.0.0.1/8")
     = Some (failure "Invalid IP range: 10.0.0.1/8")
  /\ outcome r = Exited 1
  /\ writes (trace r) = [].
Proof.
  cbn zeta.
  set (w := world0 ranges_with_host_bits [stored_iplist] []).
  assert (ip_lists_get "Zscaler IPs" w = (Ok [stored_iplist], w)) as Hget
    by reflexivity.
  assert (IPRange_raises (PyStr "2.2.2.0/24") = None) as Hfirst by reflexivity.
  assert (IPRange_raises (PyStr "10.0.0.1/8")
          = Some (failure "Invalid IP range: 10.0.0.1/8")) as Hsecond
    by reflexivity.
  assert (Forall (fun x => IPRange_raises (PyStr x) = None) ["2.2.2.0/24"])
    as Haccepted by (constructor; [exact Hfirst | constructor]).
  destruct (reconcile_refused_entry_is_fatal "Zscaler IPs" ["2.2.2.0/24"]
              "10.0.0.1/8" [] w _ _ _ Hget Haccepted Hsecond)
    as (Hrun & _ & Hwrites).
  split; [exact Hget|]. split; [exact Hfirst|]. split; [exact Hsecond|].
  split; [|exact Hwrites].
  change ranges_with_host_bits with (["2.2.2.0/24"] ++ ["10.0.0.1/8"]).
  by rewrite Hrun.
Defined.

(** The feed is not checked.  A [prefixes] that is a JSON object is
    reconciled by its keys and the change is provisioned; a [prefixes] that
    is a string is reconciled by its characters, which the constructor of
    [IPRange] refuses: the run exits after the lookup. *)
Example feed_of_another_shape :
  let dict_feed :=
    world_of_body
      (PyDict [("prefixes", PyDict [("2.2.2.0/24", PyInt 1);
                                    ("3.3.3.0/24", PyInt 2)])]) in
  let str_feed := world_of_body (PyDict [("prefixes", PyStr "oops")]) in
  writes (trace (main args0 dict_feed))
  = [IpListsUpdate (href stored_iplist) (iplist_data "Zscaler IPs" new_ranges)]
  /\ provisions (trace (main args0 dict_feed))
     = [provision_call (href stored_iplist)]
  /\ exit_status (outcome (main args0 dict_feed)) = Some 0%Z
  /\ calls (trace (main args0 str_feed)) = [IpListsGet "Zscaler IPs"]
  /\ diagnostics (trace (main args0 str_feed))
     = [Stderr "Error creating/updating IPList: Invalid IP range: o"]
  /\ exit_status (outcome (main args0 str_feed)) = Some 1%Z.
Proof. repeat split; vm_compute; reflexivity. Qed.

(** End to end: a body without [prefixes] empties the stored list and the
    change is provisioned. *)
Example missing_prefixes_empties_the_list :
  let w := world_of_body (PyDict [("other", PyInt 1)]) in
  let r := main args0 w in
  writes (trace r)
  = [IpListsUpdate (href stored_iplist) (iplist_data "Zscaler IPs" [])]
  /\ provisions (trace r) = [provision_call (href stored_iplist)]
  /\ exit_status (outcome r) = Some 0%Z.
Proof. repeat split; vm_compute; reflexivity. Qed.

End MoreRuns.
